(** * SCCP Called/Calling Party Address: encode / decode

    A shallow embedding of [params/party-address.go] (package [params] of
    go-sccp) and the properties of its wire format.

    Conventions of the embedding.

    - Every Go integer is a [Z].  A value of type [uint8] lies in [0, 2^8),
      a [uint16] in [0, 2^16), an [int] in [-2^63, 2^63).  A narrowing
      conversion ([uint8(x)], [uint16(x)]) is written out as a remainder;
      a widening conversion ([int(p.Length)], [int(b[offset])]) preserves the
      value and is left implicit.  Lengths and offsets stay far below 2^63,
      so their additions are plain; the one [int] shift ([np << 4]) has its
      64-bit wrap-around written out.
    - A [[]byte] is a [list Z]; the slices the code handles are created by
      [make] or received as an argument, and have capacity = length.
    - A Go method mutates its receiver or its buffer argument and may leave
      early with an error or panic (index or slice out of range).  Such a
      body is a computation [M S A = S -> flow S A] over the mutated state
      [S]: [Cont a s] is normal completion, [Err e s] is [return err] and
      [Panic] a run-time panic. *)

From Stdlib Require Import ZArith Lia String.
From stdpp Require Import base list.

Local Open Scope Z_scope.

(** ** Errors *)

(** [io.ErrUnexpectedEOF] is a package-level sentinel; [errors.New] builds an
    error from its message. *)
Inductive error : Type :=
| io_ErrUnexpectedEOF
| errors_New (msg : string).

Definition ErrLengthMisfit : error :=
  errors_New "sccp: party address length misfit".

(** ** Integer conversions *)

Definition uint8 (x : Z) : Z := x mod 2 ^ 8.
Definition uint16 (x : Z) : Z := x mod 2 ^ 16.

(** Wrap-around of the 64-bit signed [int]. *)
Definition int (x : Z) : Z := (x + 2 ^ 63) mod 2 ^ 64 - 2 ^ 63.

Definition is_uint8 (x : Z) : Prop := 0 <= x < 2 ^ 8.

(** [len(b)] *)
Definition len {A : Type} (b : list A) : Z := Z.of_nat (length b).

(** ** The control-flow monad *)

Inductive flow (S A : Type) : Type :=
| Cont (a : A) (s : S)
| Err (e : error) (s : S)
| Panic.

Arguments Cont {S A} a s.
Arguments Err {S A} e s.
Arguments Panic {S A}.

Definition M (S A : Type) : Type := S -> flow S A.

Definition ret {S A : Type} (a : A) : M S A := fun s => Cont a s.

Definition bind {S A B : Type} (m : M S A) (k : A -> M S B) : M S B :=
  fun s =>
    match m s with
    | Cont a s' => k a s'
    | Err e s' => Err e s'
    | Panic => Panic
    end.

Notation "x <- c ;; k" := (bind c (fun x => k))
  (at level 100, c at next level, right associativity).
Notation "c ;; k" := (bind c (fun _ => k))
  (at level 100, right associativity).

(** [return err] *)
Definition raise {S A : Type} (e : error) : M S A := fun s => Err e s.

(** a run-time panic *)
Definition panic {S A : Type} : M S A := fun _ => Panic.

(** [if c { return err }] *)
Definition return_if {S : Type} (c : bool) (e : error) : M S unit :=
  if c then raise e else ret tt.

Definition gets {S A : Type} (f : S -> A) : M S A := fun s => Cont (f s) s.
Definition modify {S : Type} (f : S -> S) : M S unit := fun s => Cont tt (f s).

(** The result of a call that has no state left to show. *)
Inductive result (A : Type) : Type :=
| Returns (a : A)
| Panics.

Arguments Returns {A} a.
Arguments Panics {A}.

(** ** Slices *)

(** [b[i]], read: panics unless [0 <= i < len(b)]. *)
Definition index {S : Type} (b : list Z) (i : Z) : M S Z :=
  if (0 <=? i) && (i <? len b) then
    match b !! Z.to_nat i with
    | Some x => ret x
    | None => panic
    end
  else panic.

(** [b[lo:hi]]: panics unless [0 <= lo <= hi <= cap(b)]. *)
Definition slice {S : Type} (b : list Z) (lo hi : Z) : M S (list Z) :=
  if (0 <=? lo) && (lo <=? hi) && (hi <=? len b) then
    ret (take (Z.to_nat (hi - lo)) (drop (Z.to_nat lo) b))
  else panic.

(** [make([]byte, n)]: panics when [n] is negative. *)
Definition make {S : Type} (n : Z) : M S (list Z) :=
  if 0 <=? n then ret (replicate (Z.to_nat n) 0) else panic.

(** [copy(dst, src)]: the first [min(len(dst), len(src))] elements of [src]
    overwrite those of [dst]; returns [dst] afterwards. *)
Definition copy (dst src : list Z) : list Z :=
  take (length dst) src ++ drop (length src) dst.

(** [binary.BigEndian.Uint16(s)]: [uint16(s[1]) | uint16(s[0])<<8], after the
    bounds check [_ = s[1]]. *)
Definition BigEndian_Uint16 {S : Type} (s : list Z) : M S Z :=
  s1 <- index s 1 ;;
  s0 <- index s 0 ;;
  ret (Z.lor s1 (uint16 (Z.shiftl s0 8))).

(** Writes to the buffer, which is the state of the encoder. *)

(** [b[i] = v] *)
Definition store (i v : Z) : M (list Z) unit :=
  fun b =>
    if (0 <=? i) && (i <? len b) then Cont tt (<[Z.to_nat i := v]> b)
    else Panic.

(** [binary.BigEndian.PutUint16(b[lo:hi], v)]: on the sub-slice [s],
    [_ = s[1]; s[0] = byte(v >> 8); s[1] = byte(v)]. *)
Definition BigEndian_PutUint16 (lo hi v : Z) : M (list Z) unit :=
  b <- gets (fun b => b) ;;
  s <- slice b lo hi ;;
  _ <- index s 1 ;;
  store lo (uint8 (Z.shiftr v 8)) ;;
  store (lo + 1) (uint8 v).

(** [copy(b[lo:hi], src)] *)
Definition copy_to (lo hi : Z) (src : list Z) : M (list Z) unit :=
  b <- gets (fun b => b) ;;
  s <- slice b lo hi ;;
  modify (fun b =>
    take (Z.to_nat lo) b ++ copy s src ++ drop (Z.to_nat hi) b).

(** ** Data model *)

(** [GlobalTitle] is a GlobalTitle inside the Called/Calling Party Address. *)
Record GlobalTitle : Type := mkGlobalTitle {
  TranslationType : Z;           (* uint8 *)
  NumberingPlan : Z;             (* int, 1/2 octet *)
  EncodingScheme : Z;            (* int, 1/2 octet *)
  NatureOfAddressIndicator : Z;  (* uint8 *)
  GlobalTitleInfo : list Z       (* []byte *)
}.

(** [PartyAddress] represents a Called/Calling Party Address; the Go struct
    embeds [GlobalTitle], whose fields are promoted. *)
Record PartyAddress : Type := mkPartyAddress {
  Length : Z;                    (* uint8 *)
  Indicator : Z;                 (* uint8 *)
  SignalingPointCode : Z;        (* uint16 *)
  SubsystemNumber : Z;           (* uint8 *)
  GT : GlobalTitle
}.

(** [new(PartyAddress)]: the zero value; a nil slice has length 0. *)
Definition new_PartyAddress : PartyAddress :=
  mkPartyAddress 0 0 0 0 (mkGlobalTitle 0 0 0 0 []).

(** Field assignments [p.F = v]. *)
Definition set_Length (v : Z) (p : PartyAddress) : PartyAddress :=
  mkPartyAddress v (Indicator p) (SignalingPointCode p) (SubsystemNumber p) (GT p).
Definition set_Indicator (v : Z) (p : PartyAddress) : PartyAddress :=
  mkPartyAddress (Length p) v (SignalingPointCode p) (SubsystemNumber p) (GT p).
Definition set_SignalingPointCode (v : Z) (p : PartyAddress) : PartyAddress :=
  mkPartyAddress (Length p) (Indicator p) v (SubsystemNumber p) (GT p).
Definition set_SubsystemNumber (v : Z) (p : PartyAddress) : PartyAddress :=
  mkPartyAddress (Length p) (Indicator p) (SignalingPointCode p) v (GT p).
Definition set_GT (g : GlobalTitle) (p : PartyAddress) : PartyAddress :=
  mkPartyAddress (Length p) (Indicator p) (SignalingPointCode p) (SubsystemNumber p) g.
Definition set_TranslationType (v : Z) (p : PartyAddress) : PartyAddress :=
  set_GT (mkGlobalTitle v (NumberingPlan (GT p)) (EncodingScheme (GT p))
            (NatureOfAddressIndicator (GT p)) (GlobalTitleInfo (GT p))) p.
Definition set_NumberingPlan (v : Z) (p : PartyAddress) : PartyAddress :=
  set_GT (mkGlobalTitle (TranslationType (GT p)) v (EncodingScheme (GT p))
            (NatureOfAddressIndicator (GT p)) (GlobalTitleInfo (GT p))) p.
Definition set_EncodingScheme (v : Z) (p : PartyAddress) : PartyAddress :=
  set_GT (mkGlobalTitle (TranslationType (GT p)) (NumberingPlan (GT p)) v
            (NatureOfAddressIndicator (GT p)) (GlobalTitleInfo (GT p))) p.
Definition set_NatureOfAddressIndicator (v : Z) (p : PartyAddress) : PartyAddress :=
  set_GT (mkGlobalTitle (TranslationType (GT p)) (NumberingPlan (GT p))
            (EncodingScheme (GT p)) v (GlobalTitleInfo (GT p))) p.
Definition set_GlobalTitleInfo (v : list Z) (p : PartyAddress) : PartyAddress :=
  set_GT (mkGlobalTitle (TranslationType (GT p)) (NumberingPlan (GT p))
            (EncodingScheme (GT p)) (NatureOfAddressIndicator (GT p)) v) p.

(** ** Indicator predicates *)

(** [RouteOnGT] reports whether the packet is routed on Global Title. *)
Definition RouteOnGT (p : PartyAddress) : bool :=
  Z.land (Z.shiftr (Indicator p) 6) 1 =? 0.

(** [GTI] returns the GlobalTitleIndicator value retrieved from Indicator. *)
Definition GTI (p : PartyAddress) : Z :=
  Z.land (Z.shiftr (Indicator p) 2) 15.

(** [HasSSN] reports whether PartyAddress has a Subsystem Number. *)
Definition HasSSN (p : PartyAddress) : bool :=
  Z.land (Z.shiftr (Indicator p) 1) 1 =? 1.

(** [HasPC] reports whether PartyAddress has a Signaling Point Code. *)
Definition HasPC (p : PartyAddress) : bool :=
  Z.land (Indicator p) 1 =? 1.

(** [IsOddDigits] reports whether GlobalTitleInfo is odd number or not. *)
Definition IsOddDigits (p : PartyAddress) : bool :=
  EncodingScheme (GT p) =? 1.

(** ** Length computation *)

(** [MarshalLen] returns the serial length. *)
Definition MarshalLen (p : PartyAddress) : Z :=
  let l := 2 + len (GlobalTitleInfo (GT p)) in
  let l := if HasPC p then l + 2 else l in
  let l := if HasSSN p then l + 1 else l in
  let l :=
    if GTI p =? 1 then l + 1
    else if GTI p =? 2 then l + 1
    else if GTI p =? 3 then l + 2
    else if GTI p =? 4 then l + 3
    else l in
  l.

(** [SetLength] sets the length in Length field. *)
Definition SetLength (p : PartyAddress) : PartyAddress :=
  let l := 1 + len (GlobalTitleInfo (GT p)) in
  let l := if HasPC p then l + 2 else l in
  let l := if HasSSN p then l + 1 else l in
  let l :=
    if GTI p =? 1 then l + 1
    else if GTI p =? 2 then l + 1
    else if GTI p =? 3 then l + 2
    else if GTI p =? 4 then l + 3
    else l in
  set_Length (uint8 l) p.

(** [NewPartyAddress] creates a new PartyAddress including GlobalTitle. *)
Definition NewPartyAddress (gti spc ssn tt np es nai : Z) (gt : list Z)
  : PartyAddress :=
  let p :=
    mkPartyAddress 0 (uint8 gti) (uint16 spc) (uint8 ssn)
      (mkGlobalTitle (uint8 tt) np es (uint8 nai) gt) in
  set_Length (uint8 (MarshalLen p - 1)) p.

(** ** Encoder *)

(** [MarshalTo] puts the byte sequence in the byte array given as b. *)
Definition MarshalTo (p : PartyAddress) : M (list Z) unit :=
  store 0 (Length p) ;;
  store 1 (Indicator p) ;;
  let offset := 2 in
  offset <-
    (if HasPC p then
       BigEndian_PutUint16 offset (offset + 2) (SignalingPointCode p) ;;
       ret (offset + 2)
     else ret offset) ;;
  offset <-
    (if HasSSN p then
       store offset (SubsystemNumber p) ;;
       ret (offset + 1)
     else ret offset) ;;
  offset <-
    (if GTI p =? 1 then
       store offset (NatureOfAddressIndicator (GT p)) ;;
       ret (offset + 1)
     else if GTI p =? 2 then
       store offset (TranslationType (GT p)) ;;
       ret (offset + 1)
     else if GTI p =? 3 then
       store offset (TranslationType (GT p)) ;;
       store (offset + 1)
         (uint8 (Z.lor (int (Z.shiftl (NumberingPlan (GT p)) 4))
                       (EncodingScheme (GT p)))) ;;
       ret (offset + 2)
     else if GTI p =? 4 then
       store offset (TranslationType (GT p)) ;;
       store (offset + 1)
         (uint8 (Z.lor (int (Z.shiftl (NumberingPlan (GT p)) 4))
                       (EncodingScheme (GT p)))) ;;
       store (offset + 2) (NatureOfAddressIndicator (GT p)) ;;
       ret (offset + 3)
     else ret offset) ;;
  copy_to offset (MarshalLen p) (GlobalTitleInfo (GT p)) ;;
  ret tt.

(** [MarshalBinary] returns the byte sequence generated from a PartyAddress
    instance: the Go pair [([]byte, error)]. *)
Definition MarshalBinary (p : PartyAddress)
  : result (option (list Z) * option error) :=
  match make (MarshalLen p) tt with
  | Cont b _ =>
      match MarshalTo p b with
      | Cont _ b' => Returns (Some b', None)
      | Err e _ => Returns (None, Some e)
      | Panic => Panics
      end
  | _ => Panics
  end.

(** ** Decoder *)

(** [UnmarshalBinary] sets the values retrieved from byte sequence in a
    PartyAddress. *)
Definition UnmarshalBinary (b : list Z) : M PartyAddress unit :=
  return_if (len b <? 3) io_ErrUnexpectedEOF ;;
  b0 <- index b 0 ;;
  modify (set_Length b0) ;;
  l <- gets Length ;;
  return_if (l >=? len b) io_ErrUnexpectedEOF ;;
  b1 <- index b 1 ;;
  modify (set_Indicator b1) ;;
  let offset := 2 in
  hasPC <- gets HasPC ;;
  offset <-
    (if hasPC then
       let end_ := offset + 2 in
       return_if (end_ >=? len b) io_ErrUnexpectedEOF ;;
       s <- slice b offset end_ ;;
       v <- BigEndian_Uint16 s ;;
       modify (set_SignalingPointCode v) ;;
       ret end_
     else ret offset) ;;
  hasSSN <- gets HasSSN ;;
  offset <-
    (if hasSSN then
       x <- index b offset ;;
       modify (set_SubsystemNumber x) ;;
       let offset := offset + 1 in
       return_if (offset >=? len b) io_ErrUnexpectedEOF ;;
       ret offset
     else ret offset) ;;
  gti <- gets GTI ;;
  offset <-
    (if gti =? 1 then
       x <- index b offset ;;
       modify (set_NatureOfAddressIndicator x) ;;
       ret (offset + 1)
     else if gti =? 2 then
       x <- index b offset ;;
       modify (set_TranslationType x) ;;
       ret (offset + 1)
     else if gti =? 3 then
       x <- index b offset ;;
       modify (set_TranslationType x) ;;
       let offset := offset + 1 in
       return_if (offset >=? len b) io_ErrUnexpectedEOF ;;
       x <- index b offset ;;
       modify (set_NumberingPlan (Z.land (Z.shiftr x 4) 15)) ;;
       x <- index b offset ;;
       modify (set_EncodingScheme (Z.land x 15)) ;;
       ret (offset + 1)
     else if gti =? 4 then
       x <- index b offset ;;
       modify (set_TranslationType x) ;;
       let offset := offset + 1 in
       return_if (offset + 1 >=? len b) io_ErrUnexpectedEOF ;;
       x <- index b offset ;;
       modify (set_NumberingPlan (Z.land (Z.shiftr x 4) 15)) ;;
       x <- index b offset ;;
       modify (set_EncodingScheme (Z.land x 15)) ;;
       let offset := offset + 1 in
       x <- index b offset ;;
       modify (set_NatureOfAddressIndicator x) ;;
       ret (offset + 1)
     else ret offset) ;;
  l <- gets Length ;;
  let infoLen := 1 + l - offset in
  return_if (infoLen <? 0) ErrLengthMisfit ;;
  dst <- make infoLen ;;
  src <- slice b offset (len b) ;;
  modify (set_GlobalTitleInfo (copy dst src)) ;;
  ret tt.

(** [ParsePartyAddress] decodes given byte sequence as a PartyAddress: the
    Go pair [( *PartyAddress, error)], [None] standing for [nil]. *)
Definition ParsePartyAddress (b : list Z)
  : result (option PartyAddress * option error) :=
  match UnmarshalBinary b new_PartyAddress with
  | Cont _ p => Returns (Some p, None)
  | Err e _ => Returns (None, Some e)
  | Panic => Panics
  end.

(** [parse(serialize(v))]: the decoder applied to what the encoder returns. *)
Definition roundtrip (p : PartyAddress)
  : result (option PartyAddress * option error) :=
  match MarshalBinary p with
  | Returns (Some b, None) => ParsePartyAddress b
  | Returns (_, Some e) => Returns (None, Some e)
  | Returns (None, None) => Returns (None, None)
  | Panics => Panics
  end.

(** ** Values on the wire *)

(** A value that holds nothing but what its indicator puts on the wire: a
    field the indicator leaves out has the zero value, and the two
    half-octets fit in four bits. *)
Definition on_wire (p : PartyAddress) : bool :=
  let g := GTI p in
  (0 <=? SignalingPointCode p) && (SignalingPointCode p <? 2 ^ 16)
  && (HasPC p || (SignalingPointCode p =? 0))
  && (HasSSN p || (SubsystemNumber p =? 0))
  && ((g =? 2) || (g =? 3) || (g =? 4) || (TranslationType (GT p) =? 0))
  && (if (g =? 3) || (g =? 4)
      then (0 <=? NumberingPlan (GT p)) && (NumberingPlan (GT p) <? 16)
           && (0 <=? EncodingScheme (GT p)) && (EncodingScheme (GT p) <? 16)
      else (NumberingPlan (GT p) =? 0) && (EncodingScheme (GT p) =? 0))
  && ((g =? 1) || (g =? 4) || (NatureOfAddressIndicator (GT p) =? 0)).

(** The GTI selects one of the four variants that add fixed bytes. *)
Definition gti_variant (p : PartyAddress) : bool :=
  (1 <=? GTI p) && (GTI p <=? 4).

(** ** The layout of the specification

    The wire layout as the specification words it (sections 4.2, 4.3 and 6),
    kept apart from the code above, to compare the two. *)
Module Spec.

(** "GTI-variant extra bytes (0/1/1/2/3 for GTI 0/1/2/3/4 respectively, 0
    for any other GTI value)" *)
Definition gtiExtraBytes (g : Z) : Z :=
  nth (Z.to_nat g) [0; 1; 1; 2; 3] 0.

(** "Base 2 (length byte + indicator byte) + 2 if PC present + 1 if SSN
    present + GTI-variant extra bytes + length of globalTitleInfo" *)
Definition fixedLength (indicator : Z) : Z :=
  2 + (if Z.testbit indicator 0 then 2 else 0)
    + (if Z.testbit indicator 1 then 1 else 0)
    + gtiExtraBytes (Z.land (Z.shiftr indicator 2) 15).

Definition computeWireLength (p : PartyAddress) : Z :=
  fixedLength (Indicator p) + len (GlobalTitleInfo (GT p)).

(** "write the point code as a 2-byte big-endian value" *)
Definition pointCode (p : PartyAddress) : list Z :=
  if Z.testbit (Indicator p) 0
  then [SignalingPointCode p / 256 mod 256; SignalingPointCode p mod 256]
  else [].

Definition subsystemNumber (p : PartyAddress) : list Z :=
  if Z.testbit (Indicator p) 1 then [SubsystemNumber p] else [].

(** "(numberingPlan<<4 | encodingScheme)", truncated to the byte it is
    written to. *)
Definition packed (p : PartyAddress) : Z :=
  Z.lor (NumberingPlan (GT p) * 16) (EncodingScheme (GT p)) mod 256.

(** The table of section 4.3. *)
Definition gtiFields (p : PartyAddress) : list Z :=
  match Z.land (Z.shiftr (Indicator p) 2) 15 with
  | 1 => [NatureOfAddressIndicator (GT p)]
  | 2 => [TranslationType (GT p)]
  | 3 => [TranslationType (GT p); packed p]
  | 4 => [TranslationType (GT p); packed p; NatureOfAddressIndicator (GT p)]
  | _ => []
  end.

Definition serialize (p : PartyAddress) : list Z :=
  Length p :: Indicator p ::
    pointCode p ++ subsystemNumber p ++ gtiFields p
    ++ GlobalTitleInfo (GT p).

End Spec.

(** ** The digit-string accessor

    [GTString] reads
    [[
      if len( p.GlobalTitleInfo > 0 ) {
          return utils.SwappedBytesToStr(p.GlobalTitleInfo, p.IsOddDigits())
      }
      return ""
    ]]
    The guard compares a slice with a constant and takes the length of the
    comparison.  To say what that means, the guard is kept as syntax, with
    the typing rules of Go for the two operators it uses: the ordering
    operators apply to operands of one ordered type (integers, strings), and
    [len] applies to slices and strings and yields an [int]. *)
Module GoGuard.

Inductive type : Type := TInt | TBool | TBytes | TString.

Inductive expr : Type :=
| FieldGlobalTitleInfo          (* p.GlobalTitleInfo *)
| IntConst (n : Z)              (* an integer constant *)
| Greater (x y : expr)          (* x > y *)
| LenOf (x : expr).             (* len(x) *)

Inductive value : Type :=
| VInt (n : Z)
| VBool (c : bool)
| VBytes (l : list Z).

Fixpoint typeof (e : expr) : option type :=
  match e with
  | FieldGlobalTitleInfo => Some TBytes
  | IntConst _ => Some TInt
  | Greater x y =>
      match typeof x, typeof y with
      | Some TInt, Some TInt => Some TBool
      | Some TString, Some TString => Some TBool
      | _, _ => None
      end
  | LenOf x =>
      match typeof x with
      | Some TBytes | Some TString => Some TInt
      | _ => None
      end
  end.

(** The value of an expression the type checker accepts; [None] for an
    expression it rejects. *)
Fixpoint eval (p : PartyAddress) (e : expr) : option value :=
  match e with
  | FieldGlobalTitleInfo => Some (VBytes (GlobalTitleInfo (GT p)))
  | IntConst n => Some (VInt n)
  | Greater x y =>
      match eval p x, eval p y with
      | Some (VInt a), Some (VInt b) => Some (VBool (b <? a))
      | _, _ => None
      end
  | LenOf x =>
      match eval p x with
      | Some (VBytes l) => Some (VInt (len l))
      | _ => None
      end
  end.

(** [len( p.GlobalTitleInfo > 0 )], as the source has it. *)
Definition guard : expr := LenOf (Greater FieldGlobalTitleInfo (IntConst 0)).

(** [len(p.GlobalTitleInfo) > 0], one parenthesis moved. *)
Definition guard_moved : expr :=
  Greater (LenOf FieldGlobalTitleInfo) (IntConst 0).

End GoGuard.

Section GTString.

(** [utils.SwappedBytesToStr], of package [utils], outside this file. *)
Variable SwappedBytesToStr : list Z -> bool -> string.

(** The body of [GTString] under a guard [g]; [None] when the guard is
    not a boolean expression, and the function does not compile. *)
Definition GTString_with (g : GoGuard.expr) (p : PartyAddress)
  : option string :=
  match GoGuard.typeof g, GoGuard.eval p g with
  | Some GoGuard.TBool, Some (GoGuard.VBool true) =>
      Some (SwappedBytesToStr (GlobalTitleInfo (GT p)) (IsOddDigits p))
  | Some GoGuard.TBool, Some (GoGuard.VBool false) => Some EmptyString
  | _, _ => None
  end.

(** [GTString] returns the GlobalTitleInfo in human readable string. *)
Definition GTString (p : PartyAddress) : option string :=
  GTString_with GoGuard.guard p.

End GTString.

(** Scenario A of the specification. *)
Definition scenarioA : PartyAddress :=
  NewPartyAddress 0x12 0 6 0 1 2 3 [0x21; 0x43].

(** A digit sequence of 255 bytes, beyond what one length byte can count. *)
Definition oversize : PartyAddress :=
  mkPartyAddress 0 0 0 0 (mkGlobalTitle 0 0 0 0 (replicate 255 0)).

(** What a party address looks like after one trip over the wire: a field the
    indicator leaves out is zero, the point code is cut to 16 bits, the two
    half octets are what the packed byte holds (the high bits of the encoding
    scheme run into the numbering plan), and the digits are as many as the
    length field leaves room for. *)
Definition wire_image (p : PartyAddress) : PartyAddress :=
  let g := GTI p in
  let fixed := MarshalLen p - len (GlobalTitleInfo (GT p)) in
  mkPartyAddress (Length p) (Indicator p)
    (if HasPC p then SignalingPointCode p mod 2 ^ 16 else 0)
    (if HasSSN p then SubsystemNumber p else 0)
    (mkGlobalTitle
       (if (g =? 2) || (g =? 3) || (g =? 4)
        then TranslationType (GT p) else 0)
       (if (g =? 3) || (g =? 4)
        then Z.land (Z.lor (NumberingPlan (GT p))
                       (Z.shiftr (EncodingScheme (GT p)) 4)) 15
        else 0)
       (if (g =? 3) || (g =? 4)
        then Z.land (EncodingScheme (GT p)) 15 else 0)
       (if (g =? 1) || (g =? 4)
        then NatureOfAddressIndicator (GT p) else 0)
       (take (Z.to_nat (1 + Length p - fixed)) (GlobalTitleInfo (GT p)))).

(** * Properties *)

(** ** Lengths *)

Create Rewrite HintDb len.

Lemma len_nil {A : Type} : len (@nil A) = 0.
Proof. reflexivity. Qed.

Lemma len_cons {A : Type} (x : A) (l : list A) : len (x :: l) = 1 + len l.
Proof. unfold len. cbn [length]. lia. Qed.

Lemma len_app {A : Type} (l k : list A) : len (l ++ k) = len l + len k.
Proof. unfold len. rewrite length_app. lia. Qed.

Lemma len_nonneg {A : Type} (l : list A) : 0 <= len l.
Proof. unfold len. lia. Qed.

Lemma len_replicate {A : Type} (n : nat) (x : A) :
  len (replicate n x) = Z.of_nat n.
Proof. unfold len. now rewrite length_replicate. Qed.

Lemma len_insert {A : Type} (l : list A) (i : nat) (x : A) :
  len (<[i := x]> l) = len l.
Proof. unfold len. now rewrite length_insert. Qed.

Lemma len_take {A : Type} (n : nat) (l : list A) :
  len (take n l) = Z.min (Z.of_nat n) (len l).
Proof. unfold len. rewrite length_take. lia. Qed.

Lemma len_drop {A : Type} (n : nat) (l : list A) :
  len (drop n l) = Z.max 0 (len l - Z.of_nat n).
Proof. unfold len. rewrite length_drop. lia. Qed.

#[local] Hint Rewrite @len_nil @len_cons @len_app @len_replicate @len_insert
  @len_take @len_drop : len.

Ltac len_lia := autorewrite with len in *; unfold len in *; lia.

(** ** The primitives inside their bounds *)

Lemma index_ok {S : Type} (b : list Z) (i : Z) (s : S) :
  0 <= i < len b -> index b i s = Cont (nth (Z.to_nat i) b 0) s.
Proof.
  intros Hi. unfold index.
  destruct (Z.leb_spec 0 i); [|lia]. destruct (Z.ltb_spec i (len b)); [|lia].
  cbn [andb].
  destruct (b !! Z.to_nat i) as [x|] eqn:E.
  - unfold ret. f_equal. symmetry. now apply nth_lookup_Some with (d := 0) in E.
  - apply lookup_ge_None in E. unfold len in *. lia.
Qed.

Lemma index_panic {S : Type} (b : list Z) (i : Z) (s : S) :
  ~ 0 <= i < len b -> index b i s = Panic.
Proof.
  intros Hi. unfold index.
  destruct (Z.leb_spec 0 i), (Z.ltb_spec i (len b)); cbn [andb];
    try reflexivity. lia.
Qed.

Lemma slice_ok {S : Type} (b : list Z) (lo hi : Z) (s : S) :
  0 <= lo <= hi -> hi <= len b ->
  slice b lo hi s = Cont (take (Z.to_nat (hi - lo)) (drop (Z.to_nat lo) b)) s.
Proof.
  intros H1 H2. unfold slice.
  destruct (Z.leb_spec 0 lo); [|lia]. destruct (Z.leb_spec lo hi); [|lia].
  destruct (Z.leb_spec hi (len b)); [|lia]. reflexivity.
Qed.

Lemma make_ok {S : Type} (n : Z) (s : S) :
  0 <= n -> make n s = Cont (replicate (Z.to_nat n) 0) s.
Proof. intros H. unfold make. destruct (Z.leb_spec 0 n); [reflexivity|lia]. Qed.

Lemma store_ok (i v : Z) (b : list Z) :
  0 <= i < len b -> store i v b = Cont tt (<[Z.to_nat i := v]> b).
Proof.
  intros Hi. unfold store.
  destruct (Z.leb_spec 0 i); [|lia]. destruct (Z.ltb_spec i (len b)); [|lia].
  reflexivity.
Qed.

(** ** Symbolic execution of a monadic body *)

Ltac cond_to_prop E :=
  first
    [ apply Z.ltb_lt in E | apply Z.ltb_ge in E
    | apply Z.geb_le in E | rewrite Z.geb_leb in E; apply Z.leb_gt in E
    | apply Z.leb_le in E | apply Z.leb_gt in E
    | apply Z.eqb_eq in E | apply Z.eqb_neq in E
    | idtac ].

(** A branch is taken as the context dictates when it already knows the
    condition; otherwise both are explored, the impossible one discarded. *)
Ltac decide_cond c :=
  first
    [ match goal with H : c = _ |- _ => rewrite H end
    | let E := fresh "C" in
      let E' := fresh "P" in
      destruct c eqn:E; pose proof E as E'; cond_to_prop E';
      try (exfalso; len_lia) ].

Ltac is_pos_lit p :=
  lazymatch p with
  | xH => idtac
  | xO ?q => is_pos_lit q
  | xI ?q => is_pos_lit q
  end.

Ltac is_Z_lit z :=
  lazymatch z with
  | Z0 => idtac
  | Zpos ?p => is_pos_lit p
  | Zneg ?p => is_pos_lit p
  end.

Ltac is_offset z :=
  lazymatch z with
  | ?a + ?b => is_offset a; is_offset b
  | ?a - ?b => is_offset a; is_offset b
  | _ => is_Z_lit z
  end.

(** Literal offsets: [2 + 2 + 1] is [5], and [Z.to_nat 5] is [5%nat]. *)
Ltac norm_offsets :=
  repeat match goal with
         | |- context [Z.to_nat ?z] =>
             is_offset z;
             let n := eval cbv in (Z.to_nat z) in
             change (Z.to_nat z) with n
         end.

Ltac fields_simpl :=
  cbn [nth take drop app length
       Length Indicator SignalingPointCode SubsystemNumber GT
       TranslationType NumberingPlan EncodingScheme NatureOfAddressIndicator
       GlobalTitleInfo
       set_Length set_Indicator set_SignalingPointCode set_SubsystemNumber
       set_GT set_TranslationType set_NumberingPlan set_EncodingScheme
       set_NatureOfAddressIndicator set_GlobalTitleInfo].

Ltac flow_simpl :=
  cbv beta iota zeta
    delta [bind ret raise panic return_if gets modify BigEndian_Uint16
           BigEndian_PutUint16 copy_to HasPC HasSSN GTI];
  norm_offsets; fields_simpl.

Ltac step_at t :=
  lazymatch t with
  | match ?x with Cont _ _ => _ | Err _ _ => _ | Panic => _ end => step_at x
  | (if ?c then _ else _) _ => decide_cond c
  | index ?b ?i ?s => rewrite (index_ok b i s) by len_lia
  | slice ?b ?lo ?hi ?s => rewrite (slice_ok b lo hi s) by len_lia
  | make ?n ?s => rewrite (make_ok n s) by len_lia
  | store ?i ?v ?b => rewrite (store_ok i v b) by len_lia
  end.

Ltac step :=
  flow_simpl;
  match goal with
  | |- context [match ?x with Cont _ _ => _ | Err _ _ => _ | Panic => _ end] =>
      step_at x
  end.

Ltac run := repeat step; flow_simpl.

(** ** Bits *)

Lemma land_1_testbit (x : Z) : (Z.land x 1 =? 1) = Z.testbit x 0.
Proof.
  change 1 with (Z.ones 1) at 1. rewrite Z.land_ones by lia.
  rewrite Z.bit0_odd. change (2 ^ 1) with 2. rewrite Zmod_odd.
  now destruct (Z.odd x).
Qed.

Lemma land_shiftr_1_testbit (x : Z) :
  (Z.land (Z.shiftr x 1) 1 =? 1) = Z.testbit x 1.
Proof.
  rewrite land_1_testbit. rewrite Z.shiftr_spec by lia. reflexivity.
Qed.

Lemma land_15_range (x : Z) : 0 <= Z.land x 15 < 16.
Proof.
  change 15 with (Z.ones 4). rewrite Z.land_ones by lia.
  apply Z.mod_pos_bound. lia.
Qed.

Lemma GTI_range (p : PartyAddress) : 0 <= GTI p < 16.
Proof. apply land_15_range. Qed.

Lemma lor_shiftl_add (a b k : Z) :
  0 <= k -> 0 <= b < 2 ^ k -> Z.lor (Z.shiftl a k) b = a * 2 ^ k + b.
Proof.
  intros Hk Hb.
  assert (Z.land (Z.shiftl a k) b = 0) as Hdisj.
  { apply Z.bits_inj'. intros n Hn. rewrite Z.land_spec, Z.bits_0.
    destruct (Z.lt_ge_cases n k).
    - rewrite Z.shiftl_spec_low by lia. reflexivity.
    - rewrite <- (Z.mod_small b (2 ^ k)) by lia.
      rewrite Z.mod_pow2_bits_high by lia. apply andb_false_r. }
  rewrite <- Z.lxor_lor by assumption.
  rewrite <- Z.add_nocarry_lxor by assumption.
  now rewrite Z.shiftl_mul_pow2.
Qed.

Lemma int_mod (x : Z) : int x mod 2 ^ 8 = x mod 2 ^ 8.
Proof.
  unfold int.
  assert (exists k, (x + 2 ^ 63) mod 2 ^ 64 - 2 ^ 63 = x + k * 2 ^ 8) as [k Hk].
  { exists (- ((x + 2 ^ 63) / 2 ^ 64) * 2 ^ 56).
    pose proof (Z.div_mod (x + 2 ^ 63) (2 ^ 64)). lia. }
  rewrite Hk. apply Z.mod_add. lia.
Qed.

Lemma lor_mod_pow2 (a b n : Z) :
  0 <= n -> Z.lor a b mod 2 ^ n = Z.lor (a mod 2 ^ n) (b mod 2 ^ n).
Proof.
  intros Hn. rewrite <- !Z.land_ones by lia. apply Z.land_lor_distr_l.
Qed.

(** The byte the encoder packs the two half-octets into. *)
Lemma packed_code (p : PartyAddress) :
  uint8 (Z.lor (int (Z.shiftl (NumberingPlan (GT p)) 4)) (EncodingScheme (GT p)))
  = Spec.packed p.
Proof.
  unfold uint8, Spec.packed.
  rewrite (lor_mod_pow2 (int _)) by lia. rewrite int_mod.
  rewrite <- lor_mod_pow2 by lia. now rewrite Z.shiftl_mul_pow2 by lia.
Qed.

(** Unpacking what was packed. *)
Lemma pack_unpack (x : Z) :
  0 <= x < 256 ->
  Z.lor (Z.land (Z.shiftr x 4) 15 * 16) (Z.land x 15) mod 256 = x.
Proof.
  intros Hx.
  change 15 with (Z.ones 4). rewrite !Z.land_ones by lia.
  rewrite Z.shiftr_div_pow2 by lia.
  change 16 with (2 ^ 4) at 1. rewrite <- Z.shiftl_mul_pow2 by lia.
  rewrite lor_shiftl_add by (try apply Z.mod_pos_bound; lia).
  change (2 ^ 4) with 16. 
  pose proof (Z.div_mod x 16). pose proof (Z.mod_pos_bound x 16).
  pose proof (Z.mod_pos_bound (x / 16) 16).
  assert (x / 16 < 16) by (apply Z.div_lt_upper_bound; lia).
  assert (0 <= x / 16) by (apply Z.div_pos; lia).
  rewrite (Z.mod_small (x / 16)) by lia. rewrite Z.mod_small by lia. lia.
Qed.

Lemma unpack_pack (np es : Z) :
  0 <= np < 16 -> 0 <= es < 16 ->
  let x := Z.lor (np * 16) es mod 256 in
  Z.land (Z.shiftr x 4) 15 = np /\ Z.land x 15 = es.
Proof.
  intros Hnp Hes x. subst x.
  change (np * 16) with (np * 2 ^ 4). rewrite <- Z.shiftl_mul_pow2 by lia.
  rewrite lor_shiftl_add by lia.
  change 15 with (Z.ones 4). rewrite !Z.land_ones by lia.
  rewrite Z.shiftr_div_pow2 by lia. change (2 ^ 4) with 16.
  rewrite (Z.mod_small _ 256) by lia.
  split.
  - rewrite Z.div_add_l by lia. rewrite (Z.div_small es) by lia.
    rewrite Z.mod_small; lia.
  - rewrite Z.add_comm, Z.mod_add by lia. apply Z.mod_small; lia.
Qed.

(** The 16-bit point code and its two bytes. *)
Lemma Uint16_bytes (s0 s1 : Z) :
  0 <= s0 < 256 -> 0 <= s1 < 256 ->
  let v := Z.lor s1 (uint16 (Z.shiftl s0 8)) in
  v / 256 mod 256 = s0 /\ v mod 256 = s1 /\ 0 <= v < 2 ^ 16.
Proof.
  intros H0 H1 v. subst v. unfold uint16.
  rewrite Z.shiftl_mul_pow2 by lia. rewrite (Z.mod_small (s0 * 2 ^ 8)) by lia.
  rewrite <- Z.shiftl_mul_pow2 by lia. rewrite Z.lor_comm.
  rewrite lor_shiftl_add by lia. change (2 ^ 8) with 256.
  repeat split; try lia.
  - rewrite Z.div_add_l by lia. rewrite (Z.div_small s1) by lia.
    rewrite Z.mod_small; lia.
  - rewrite Z.add_comm, Z.mod_add by lia. apply Z.mod_small; lia.
Qed.

Lemma bytes_Uint16 (v : Z) :
  0 <= v < 2 ^ 16 ->
  Z.lor (v mod 256) (uint16 (Z.shiftl (v / 256 mod 256) 8)) = v.
Proof.
  intros Hv.
  assert (0 <= v / 256 < 256)
    by (split; [apply Z.div_pos | apply Z.div_lt_upper_bound]; lia).
  rewrite (Z.mod_small (v / 256)) by lia.
  unfold uint16. rewrite Z.shiftl_mul_pow2 by lia.
  rewrite (Z.mod_small (v / 256 * 2 ^ 8)) by lia.
  rewrite <- Z.shiftl_mul_pow2 by lia. rewrite Z.lor_comm.
  rewrite lor_shiftl_add by (try apply Z.mod_pos_bound; lia).
  change (2 ^ 8) with 256. pose proof (Z.div_mod v 256). lia.
Qed.

Lemma uint8_small (x : Z) : 0 <= x < 256 -> uint8 x = x.
Proof. intros H. apply Z.mod_small. exact H. Qed.


(** ** The decoder stays inside the buffer *)

Lemma UnmarshalBinary_no_panic (b : list Z) (p : PartyAddress) :
  UnmarshalBinary b p <> Panic.
Proof. unfold UnmarshalBinary. run; discriminate. Qed.

Lemma ParsePartyAddress_no_panic (b : list Z) : ParsePartyAddress b <> Panics.
Proof.
  unfold ParsePartyAddress.
  pose proof (UnmarshalBinary_no_panic b new_PartyAddress).
  destruct (UnmarshalBinary b new_PartyAddress); congruence.
Qed.

Lemma gtiExtraBytes_other (g : Z) :
  g <> 1 -> g <> 2 -> g <> 3 -> g <> 4 -> Spec.gtiExtraBytes g = 0.
Proof.
  intros H1 H2 H3 H4. unfold Spec.gtiExtraBytes.
  destruct (Z.le_gt_cases g 0).
  - replace (Z.to_nat g) with 0%nat by lia. reflexivity.
  - apply nth_overflow. cbn [length]. lia.
Qed.

(** The fixed length of the specification, by the tests the code makes. *)
Lemma fixedLength_code (ind : Z) :
  Spec.fixedLength ind
  = 2 + (if Z.land ind 1 =? 1 then 2 else 0)
      + (if Z.land (Z.shiftr ind 1) 1 =? 1 then 1 else 0)
      + (let g := Z.land (Z.shiftr ind 2) 15 in
         if g =? 1 then 1 else if g =? 2 then 1
         else if g =? 3 then 2 else if g =? 4 then 3 else 0).
Proof.
  unfold Spec.fixedLength.
  rewrite <- land_1_testbit, <- land_shiftr_1_testbit. cbv zeta.
  do 2 f_equal.
  destruct (Z.eqb_spec (Z.land (Z.shiftr ind 2) 15) 1) as [->|]; [reflexivity|].
  destruct (Z.eqb_spec (Z.land (Z.shiftr ind 2) 15) 2) as [->|]; [reflexivity|].
  destruct (Z.eqb_spec (Z.land (Z.shiftr ind 2) 15) 3) as [->|]; [reflexivity|].
  destruct (Z.eqb_spec (Z.land (Z.shiftr ind 2) 15) 4) as [->|]; [reflexivity|].
  now apply gtiExtraBytes_other.
Qed.

Ltac use_conds :=
  repeat match goal with
         | H : ?c = _, H' : context [if ?c then _ else _] |- _ =>
             rewrite H in H'
         | H : ?c = _ |- context [if ?c then _ else _] => rewrite H
         end.

Lemma UnmarshalBinary_short (b : list Z) (p : PartyAddress) (ind : Z) :
  b !! 1%nat = Some ind -> len b < Spec.fixedLength ind ->
  exists p', UnmarshalBinary b p = Err io_ErrUnexpectedEOF p'.
Proof.
  intros Hind Hshort. rewrite fixedLength_code in Hshort. cbv zeta in Hshort.
  destruct b as [|l [|i b]]; try discriminate.
  cbn in Hind. injection Hind as ->.
  unfold UnmarshalBinary. run.
  all: try (eexists; reflexivity).
  all: exfalso; use_conds; len_lia.
Qed.

(** ** The three ways the decoder ends *)

Lemma UnmarshalBinary_outcome (l ind : Z) (rest : list Z) (p : PartyAddress) :
  let b := l :: ind :: rest in
  (exists p', UnmarshalBinary b p = Err io_ErrUnexpectedEOF p')
  \/ (0 <= 1 + l - Spec.fixedLength ind
      /\ exists p', UnmarshalBinary b p = Cont tt p')
  \/ (1 + l - Spec.fixedLength ind < 0
      /\ exists p', UnmarshalBinary b p = Err ErrLengthMisfit p'
                    /\ GlobalTitleInfo (GT p') = GlobalTitleInfo (GT p)).
Proof.
  intros b. subst b.
  generalize (eq_refl (UnmarshalBinary (l :: ind :: rest) p)).
  generalize (UnmarshalBinary (l :: ind :: rest) p) at 1 3 4 5.
  intros r. rewrite fixedLength_code. cbv zeta.
  unfold UnmarshalBinary. run.
  all: intros ->.
  all: first
         [ left; eexists; reflexivity
         | right; left; use_conds; split; [lia | eexists; reflexivity]
         | right; right; use_conds; split; [lia |];
           eexists; split; reflexivity ].
Qed.

(** C5.  The length-mismatch error.  When a buffer passes every bounds check
    of the decoder (no run on it ends in [io.ErrUnexpectedEOF]) and the fixed
    fields its indicator declares take more bytes than its length byte
    accounts for ([(1 + length) - offset] is negative), the decoder returns
    the error "sccp: party address length misfit": it does not panic, it
    leaves the digit sequence of the receiver as it was, and the error is
    not [io.ErrUnexpectedEOF].  The five-byte buffer [00 10 00 00 00] is a
    well-formed buffer that reaches this branch. *)
Theorem UnmarshalBinary_length_misfit (b : list Z) (l ind : Z) :
  b !! 0%nat = Some l -> b !! 1%nat = Some ind ->
  (forall p p', UnmarshalBinary b p <> Err io_ErrUnexpectedEOF p') ->
  1 + l - Spec.fixedLength ind < 0 ->
  (forall p, exists p',
      UnmarshalBinary b p = Err ErrLengthMisfit p'
      /\ GlobalTitleInfo (GT p') = GlobalTitleInfo (GT p))
  /\ ParsePartyAddress b = Returns (None, Some ErrLengthMisfit)
  /\ ErrLengthMisfit <> io_ErrUnexpectedEOF
  /\ (Forall is_uint8 [0x00; 0x10; 0x00; 0x00; 0x00]
      /\ ParsePartyAddress [0x00; 0x10; 0x00; 0x00; 0x00]
         = Returns (None, Some ErrLengthMisfit)).
Proof.
  intros Hl Hind Hchecks Hneg.
  destruct b as [|l' [|i' rest]]; try discriminate.
  cbn in Hl, Hind. injection Hl as ->. injection Hind as ->.
  assert (forall p, exists p',
             UnmarshalBinary (l :: ind :: rest) p = Err ErrLengthMisfit p'
             /\ GlobalTitleInfo (GT p') = GlobalTitleInfo (GT p)) as Hmisfit.
  { intros p.
    destruct (UnmarshalBinary_outcome l ind rest p)
      as [[p' E] | [[Hpos _] | [_ Hm]]].
    - exfalso. exact (Hchecks p p' E).
    - lia.
    - exact Hm. }
  split; [exact Hmisfit|]. split; [|split; [discriminate|]].
  - unfold ParsePartyAddress.
    destruct (Hmisfit new_PartyAddress) as (p' & -> & _). reflexivity.
  - split; [|reflexivity].
    repeat constructor; unfold is_uint8; lia.
Qed.

Lemma UnmarshalBinary_length_misfit_witness :
  ParsePartyAddress [0x01; 0x10; 0x00; 0x12; 0x03; 0x21]
  = Returns (None, Some ErrLengthMisfit).
Proof.
  apply (UnmarshalBinary_length_misfit
           [0x01; 0x10; 0x00; 0x12; 0x03; 0x21] 0x01 0x10).
  - reflexivity.
  - reflexivity.
  - intros p p'. vm_compute. discriminate.
  - reflexivity.
Defined.

(** C10.  Atomicity of [ParsePartyAddress].  For every buffer the call
    returns either a party address with a nil error, or a nil party address
    with an error; it never panics, and never hands back the receiver that
    a failed [UnmarshalBinary] had begun to fill. *)
Theorem ParsePartyAddress_atomic (b : list Z) :
  (exists p, ParsePartyAddress b = Returns (Some p, None)
             /\ UnmarshalBinary b new_PartyAddress = Cont tt p)
  \/ (exists e p, ParsePartyAddress b = Returns (None, Some e)
                  /\ UnmarshalBinary b new_PartyAddress = Err e p).
Proof.
  unfold ParsePartyAddress.
  pose proof (UnmarshalBinary_no_panic b new_PartyAddress) as Hsafe.
  destruct (UnmarshalBinary b new_PartyAddress) as [[] p | e p |].
  - left. exists p. split; reflexivity.
  - right. exists e, p. split; reflexivity.
  - congruence.
Qed.

(** A failed decode does write to its receiver; the caller of
    [ParsePartyAddress] does not get to see it. *)
Example ParsePartyAddress_hides_partial :
  UnmarshalBinary [0x02; 0x03; 0x00; 0x01] new_PartyAddress
  = Err io_ErrUnexpectedEOF
      (set_Indicator 0x03 (set_Length 0x02 new_PartyAddress))
  /\ ParsePartyAddress [0x02; 0x03; 0x00; 0x01]
     = Returns (None, Some io_ErrUnexpectedEOF).
Proof. split; reflexivity. Qed.

(** C7.  Scenario A.  The party address with indicator [0x12] (no point
    code, subsystem number present, GTI 4, routed on global title),
    subsystem number 6, translation type 0, numbering plan 1, encoding
    scheme 2, nature of address 3 and digits [21 43], built by the
    constructor, has length byte 7, serializes to
    [07 12 06 00 12 03 21 43], and parsing these eight bytes gives the same
    value back, field by field. *)
Theorem scenarioA_roundtrip :
  (Indicator scenarioA = 0x12 /\ HasPC scenarioA = false
   /\ HasSSN scenarioA = true /\ GTI scenarioA = 4
   /\ RouteOnGT scenarioA = true /\ Length scenarioA = 7)
  /\ MarshalBinary scenarioA
     = Returns (Some [0x07; 0x12; 0x06; 0x00; 0x12; 0x03; 0x21; 0x43], None)
  /\ ParsePartyAddress [0x07; 0x12; 0x06; 0x00; 0x12; 0x03; 0x21; 0x43]
     = Returns (Some scenarioA, None)
  /\ scenarioA
     = mkPartyAddress 7 0x12 0 6 (mkGlobalTitle 0 1 2 3 [0x21; 0x43]).
Proof. repeat split; vm_compute; reflexivity. Qed.

(** ** The encoder writes the layout of the specification *)

Lemma gtiFields_code (p : PartyAddress) :
  Spec.gtiFields p
  = let g := Z.land (Z.shiftr (Indicator p) 2) 15 in
    if g =? 1 then [NatureOfAddressIndicator (GT p)]
    else if g =? 2 then [TranslationType (GT p)]
    else if g =? 3 then [TranslationType (GT p); Spec.packed p]
    else if g =? 4 then
      [TranslationType (GT p); Spec.packed p; NatureOfAddressIndicator (GT p)]
    else [].
Proof.
  unfold Spec.gtiFields. cbv zeta.
  pose proof (land_15_range (Z.shiftr (Indicator p) 2)) as Hg.
  set (g := Z.land (Z.shiftr (Indicator p) 2) 15) in *.
  assert (g = 0 \/ g = 1 \/ g = 2 \/ g = 3 \/ g = 4 \/ g = 5 \/ g = 6 \/ g = 7
          \/ g = 8 \/ g = 9 \/ g = 10 \/ g = 11 \/ g = 12 \/ g = 13
          \/ g = 14 \/ g = 15) as Hcases by lia.
  clearbody g.
  repeat (destruct Hcases as [-> | Hcases]; [reflexivity|]).
  subst g. reflexivity.
Qed.

Lemma copy_tail (gt whole : list Z) (m n : nat) :
  m = length gt -> (length whole <= n)%nat ->
  copy (take m (replicate (length gt) 0)) gt ++ drop n whole = gt.
Proof.
  intros -> Hn.
  rewrite (take_ge (replicate _ _)) by (rewrite length_replicate; lia).
  unfold copy. rewrite length_replicate, take_ge by lia.
  rewrite (drop_ge (replicate _ _)) by (rewrite length_replicate; lia).
  rewrite drop_ge by lia. now rewrite !app_nil_r.
Qed.

Ltac const_part e :=
  lazymatch e with
  | ?a + ?b =>
      let x := const_part a in
      let y := const_part b in
      constr:(x + y)
  | len _ => constr:(0)
  | _ => constr:(e)
  end.

(** [make] of [k + len gt] bytes: [k] cells, then one per digit byte. *)
Ltac split_buffer gt :=
  match goal with
  | |- context [replicate (Z.to_nat ?e) 0] =>
      let k := const_part e in
      let n := eval cbv in (Z.to_nat k) in
      replace (Z.to_nat e) with (n + length gt)%nat by (unfold len; lia);
      cbn [replicate Nat.add]
  end.

Lemma pointCode_code (p : PartyAddress) :
  Spec.pointCode p
  = if Z.land (Indicator p) 1 =? 1
    then [uint8 (Z.shiftr (SignalingPointCode p) 8);
          uint8 (SignalingPointCode p)]
    else [].
Proof.
  unfold Spec.pointCode, uint8. rewrite land_1_testbit.
  now rewrite Z.shiftr_div_pow2 by lia.
Qed.

Lemma MarshalBinary_serialize (p : PartyAddress) :
  MarshalBinary p = Returns (Some (Spec.serialize p), None).
Proof.
  unfold MarshalBinary, Spec.serialize, Spec.subsystemNumber.
  rewrite gtiFields_code, pointCode_code, <- land_shiftr_1_testbit.
  cbv zeta. rewrite <- packed_code.
  unfold MarshalTo, MarshalLen, HasPC, HasSSN, GTI.
  destruct (Z.land (Indicator p) 1 =? 1) eqn:Hpc;
    destruct (Z.land (Z.shiftr (Indicator p) 1) 1 =? 1) eqn:Hssn;
    (destruct (Z.land (Z.shiftr (Indicator p) 2) 15 =? 1) eqn:Hg1;
     [|destruct (Z.land (Z.shiftr (Indicator p) 2) 15 =? 2) eqn:Hg2;
       [|destruct (Z.land (Z.shiftr (Indicator p) 2) 15 =? 3) eqn:Hg3;
         [|destruct (Z.land (Z.shiftr (Indicator p) 2) 15 =? 4) eqn:Hg4]]]).
  all: rewrite make_ok by len_lia.
  all: split_buffer (GlobalTitleInfo (GT p)).
  all: run.
  all: cbn [insert list_insert take drop app].
  all: repeat (f_equal; []).
  all: apply copy_tail; [unfold len; lia|].
  all: cbn [length]; rewrite length_replicate; unfold len; lia.
Qed.

(** ** Length bookkeeping *)

Lemma MarshalLen_computeWireLength (p : PartyAddress) :
  MarshalLen p = Spec.computeWireLength p.
Proof.
  unfold Spec.computeWireLength. rewrite fixedLength_code. cbv zeta.
  unfold MarshalLen, HasPC, HasSSN, GTI.
  repeat match goal with
         | |- context [if ?c then _ else _] => destruct c
         end; lia.
Qed.

Lemma MarshalLen_ge_2 (p : PartyAddress) : 2 <= MarshalLen p.
Proof.
  unfold MarshalLen.
  pose proof (len_nonneg (GlobalTitleInfo (GT p))).
  repeat match goal with
         | |- context [if ?c then _ else _] => destruct c
         end; lia.
Qed.

Lemma SetLength_MarshalLen (p : PartyAddress) :
  SetLength p = set_Length (uint8 (MarshalLen p - 1)) p.
Proof.
  unfold SetLength, MarshalLen. f_equal. f_equal.
  repeat match goal with
         | |- context [if ?c then _ else _] => destruct c
         end; lia.
Qed.

Lemma MarshalLen_set_Length (l : Z) (p : PartyAddress) :
  MarshalLen (set_Length l p) = MarshalLen p.
Proof. reflexivity. Qed.

Lemma len_serialize (p : PartyAddress) :
  len (Spec.serialize p) = Spec.computeWireLength p.
Proof.
  unfold Spec.serialize, Spec.computeWireLength, Spec.subsystemNumber.
  rewrite fixedLength_code, gtiFields_code, pointCode_code.
  rewrite <- land_shiftr_1_testbit. cbv zeta.
  repeat match goal with
         | |- context [if ?c then _ else _] => destruct c
         end; len_lia.
Qed.

Lemma len_gtiFields (p : PartyAddress) :
  len (Spec.gtiFields p) = Spec.gtiExtraBytes (GTI p).
Proof.
  rewrite gtiFields_code. cbv zeta. unfold GTI.
  destruct (Z.eqb_spec (Z.land (Z.shiftr (Indicator p) 2) 15) 1) as [->|];
    [reflexivity|].
  destruct (Z.eqb_spec (Z.land (Z.shiftr (Indicator p) 2) 15) 2) as [->|];
    [reflexivity|].
  destruct (Z.eqb_spec (Z.land (Z.shiftr (Indicator p) 2) 15) 3) as [->|];
    [reflexivity|].
  destruct (Z.eqb_spec (Z.land (Z.shiftr (Indicator p) 2) 15) 4) as [->|];
    [reflexivity|].
  symmetry. now apply gtiExtraBytes_other.
Qed.

(** The first byte of what [MarshalBinary] returns is the length field. *)
Lemma MarshalBinary_first_byte (p : PartyAddress) (b : list Z) :
  MarshalBinary p = Returns (Some b, None) ->
  b !! 0%nat = Some (Length p) /\ len b = MarshalLen p.
Proof.
  rewrite MarshalBinary_serialize. intros [= <-].
  split; [reflexivity|].
  now rewrite len_serialize, MarshalLen_computeWireLength.
Qed.

(** C3, as stated, fails.  After [SetLength], the party address with
    indicator 0 and 255 digit bytes serializes to 257 bytes, the first of
    which is 0 and not 256. *)
Lemma length_agreement_counterexample :
  exists b,
    MarshalBinary (SetLength oversize) = Returns (Some b, None)
    /\ len b = 257
    /\ b !! 0%nat = Some 0
    /\ b !! 0%nat <> Some (len b - 1).
Proof.
  exists (Spec.serialize (SetLength oversize)).
  split; [apply MarshalBinary_serialize|].
  split; [reflexivity|]. split; [reflexivity|].
  vm_compute. discriminate.
Qed.

(** C3, amended.  Length agreement.  For every party address,
    [MarshalBinary] returns a slice of exactly [MarshalLen()] bytes and a nil
    error.  [SetLength] computes [uint8(MarshalLen() - 1)], which is also
    what [NewPartyAddress] assigns, so the two constructor paths agree; the
    first byte of the serialization of a value so prepared is the byte count
    minus one truncated to eight bits, and is the byte count minus one itself
    whenever the serialization has at most 256 bytes. *)
Theorem length_agreement (p : PartyAddress) :
  (exists b, MarshalBinary p = Returns (Some b, None) /\ len b = MarshalLen p)
  /\ SetLength p = set_Length (uint8 (MarshalLen p - 1)) p
  /\ (forall gti spc ssn tt np es nai gt,
        let q := NewPartyAddress gti spc ssn tt np es nai gt in
        SetLength q = q /\ Length q = uint8 (MarshalLen q - 1))
  /\ (forall b, MarshalBinary (SetLength p) = Returns (Some b, None) ->
        b !! 0%nat = Some (uint8 (len b - 1)))
  /\ (MarshalLen p <= 256 ->
      forall b, MarshalBinary (SetLength p) = Returns (Some b, None) ->
        b !! 0%nat = Some (len b - 1)).
Proof.
  split; [|split; [|split; [|split]]].
  - exists (Spec.serialize p). split; [apply MarshalBinary_serialize|].
    now rewrite len_serialize, MarshalLen_computeWireLength.
  - apply SetLength_MarshalLen.
  - intros gti spc ssn tt np es nai gt q. subst q.
    rewrite SetLength_MarshalLen. unfold NewPartyAddress. split; reflexivity.
  - intros b Hb. apply MarshalBinary_first_byte in Hb as [-> ->].
    rewrite SetLength_MarshalLen. reflexivity.
  - intros Hfit b Hb. apply MarshalBinary_first_byte in Hb as [-> ->].
    rewrite SetLength_MarshalLen. cbn [Length set_Length].
    rewrite MarshalLen_set_Length. f_equal. apply uint8_small.
    pose proof (MarshalLen_ge_2 p). lia.
Qed.

Lemma length_agreement_witness :
  MarshalLen scenarioA <= 256
  /\ forall b, MarshalBinary (SetLength scenarioA) = Returns (Some b, None) ->
       b !! 0%nat = Some (len b - 1).
Proof.
  assert (MarshalLen scenarioA <= 256) as Hfit by (vm_compute; discriminate).
  split; [exact Hfit|].
  destruct (length_agreement scenarioA) as (_ & _ & _ & _ & Hfirst).
  exact (Hfirst Hfit).
Defined.

(** ** The constructor *)

Lemma GTI_uint8 (gti : Z) :
  Z.land (Z.shiftr (uint8 gti) 2) 15 = Z.land (Z.shiftr gti 2) 15.
Proof.
  unfold uint8. apply Z.bits_inj'. intros n Hn.
  rewrite !Z.land_spec, !Z.shiftr_spec by lia.
  destruct (Z.lt_ge_cases n 4).
  - now rewrite Z.mod_pow2_bits_low by lia.
  - change 15 with (Z.ones 4). rewrite Z.ones_spec_high by lia.
    now rewrite !andb_false_r.
Qed.

Lemma testbit_uint8 (x n : Z) :
  0 <= n < 8 -> Z.testbit (uint8 x) n = Z.testbit x n.
Proof. intros Hn. unfold uint8. apply Z.mod_pow2_bits_low. lia. Qed.

(** C9, as stated, fails in its last part.  The constructor called with 255
    digit bytes stores length 0, while [MarshalLen() - 1] is 256: the length
    invariant does not hold for this constructed value. *)
Lemma NewPartyAddress_counterexample :
  let p := NewPartyAddress 0 0 0 0 0 0 0 (replicate 255 0) in
  Length p = 0 /\ MarshalLen p - 1 = 256 /\ Length p <> MarshalLen p - 1.
Proof. cbv zeta. split; [|split]; vm_compute; congruence. Qed.

(** C9, amended.  The constructor stores its first argument, truncated to
    eight bits, as the whole indicator byte: the GTI of the result is
    [(gti >> 2) & 0xf] and not [gti], and bits 0 and 1 of the argument are
    the point-code and subsystem-number flags.  The length field is set to
    [uint8(MarshalLen() - 1)] computed over the stored indicator, so the
    length invariant [Length = MarshalLen() - 1] holds for every constructed
    value whose serialization has at most 256 bytes. *)
Theorem NewPartyAddress_indicator
  (gti spc ssn tt np es nai : Z) (gt : list Z) :
  let p := NewPartyAddress gti spc ssn tt np es nai gt in
  Indicator p = uint8 gti
  /\ GTI p = Z.land (Z.shiftr gti 2) 15
  /\ HasPC p = Z.testbit gti 0
  /\ HasSSN p = Z.testbit gti 1
  /\ Length p = uint8 (MarshalLen p - 1)
  /\ (MarshalLen p <= 256 -> Length p = MarshalLen p - 1).
Proof.
  intros p. subst p. unfold NewPartyAddress.
  rewrite MarshalLen_set_Length.
  set (q := mkPartyAddress 0 (uint8 gti) (uint16 spc) (uint8 ssn) _).
  unfold GTI, HasPC, HasSSN. cbn [Indicator Length set_Length].
  subst q. cbn [Indicator].
  split; [reflexivity|]. split; [apply GTI_uint8|].
  split; [rewrite land_1_testbit; apply testbit_uint8; lia|].
  split; [rewrite land_shiftr_1_testbit; apply testbit_uint8; lia|].
  split; [reflexivity|].
  intros Hfit. apply uint8_small.
  match goal with |- context [MarshalLen ?q] =>
    pose proof (MarshalLen_ge_2 q) end.
  lia.
Qed.

Lemma NewPartyAddress_indicator_witness :
  let p := NewPartyAddress 0x12 0 6 0 1 2 3 [0x21; 0x43] in
  MarshalLen p <= 256 /\ Length p = MarshalLen p - 1.
Proof.
  cbv zeta.
  assert (MarshalLen (NewPartyAddress 0x12 0 6 0 1 2 3 [0x21; 0x43]) <= 256)
    as Hfit by (vm_compute; discriminate).
  split; [exact Hfit|].
  destruct (NewPartyAddress_indicator 0x12 0 6 0 1 2 3 [0x21; 0x43])
    as (_ & _ & _ & _ & _ & Hinv).
  exact (Hinv Hfit).
Defined.

(** ** What the decoder read is what the encoder writes *)

Lemma length_copy (dst src : list Z) : length (copy dst src) = length dst.
Proof. unfold copy. rewrite length_app, length_take, length_drop. lia. Qed.

Lemma copy_make (m : nat) (src : list Z) :
  (m <= length src)%nat -> copy (replicate m 0) src = take m src.
Proof.
  intros Hm. unfold copy. rewrite length_replicate.
  rewrite drop_ge by (rewrite length_replicate; lia). apply app_nil_r.
Qed.

Ltac bytes_of H :=
  repeat match type of H with
         | Forall _ (_ :: _) =>
             let Hx := fresh "B" in
             apply Forall_cons in H; destruct H as [Hx H];
             unfold is_uint8 in Hx; change (2 ^ 8) with 256 in Hx
         end.

Ltac length_lia := cbn [length]; len_lia.

(** The slice [b[offset:]] of a buffer of unknown length is its tail. *)
Ltac whole_tail :=
  rewrite ?drop_0;
  try match goal with
      | |- context [copy _ (take ?n ?l)] =>
          rewrite (take_ge l n) by length_lia
      end.

(** [1 + length] bytes of the buffer: the [k] fixed ones, then the digits. *)
Ltac split_take x0 :=
  match goal with
  | |- context [replicate (Z.to_nat (1 + x0 - ?k)) 0] =>
      let n := eval cbv in (Z.to_nat k) in
      replace (Z.to_nat (1 + x0)) with (n + Z.to_nat (1 + x0 - k))%nat by lia;
      cbn [take Nat.add app]
  end.

Lemma UnmarshalBinary_reencode (b : list Z) (p p' : PartyAddress) :
  Forall is_uint8 b -> UnmarshalBinary b p = Cont tt p' ->
  Spec.serialize p' = take (Z.to_nat (1 + Length p')) b
  /\ Spec.computeWireLength p' = 1 + Length p'.
Proof.
  intros Hb H.
  destruct b as [|x0 [|x1 [|x2 [|x3 [|x4 [|x5 [|x6 [|x7 rest]]]]]]]];
    bytes_of Hb; revert H; unfold UnmarshalBinary; run;
    intros [= <-].
  all: unfold Spec.computeWireLength, Spec.serialize, Spec.pointCode,
         Spec.subsystemNumber.
  all: rewrite fixedLength_code, gtiFields_code, <- land_1_testbit,
         <- land_shiftr_1_testbit; cbv zeta; unfold Spec.packed;
         fields_simpl; use_conds.
  all: whole_tail.
  all: split;
    [ split_take x0; rewrite copy_make by length_lia
    | unfold len; rewrite length_copy, length_replicate; lia ].
  all: repeat match goal with
         | |- context [Z.lor (Z.land (Z.shiftr ?x 4) 15 * 16) (Z.land ?x 15)
                       mod 256] =>
             rewrite (pack_unpack x) by lia
         | |- context [Z.lor ?s1 (uint16 (Z.shiftl ?s0 8))] =>
             let E1 := fresh in
             let E2 := fresh in
             pose proof (Uint16_bytes s0 s1 ltac:(lia) ltac:(lia))
               as (E1 & E2 & _);
             cbv zeta in E1, E2; rewrite E1, E2; clear E1 E2
         end.
  all: reflexivity.
Qed.

(** ** Round trip *)

Lemma gti_cases (g : Z) :
  ((g =? 1) = true /\ (g =? 2) = false /\ (g =? 3) = false /\ (g =? 4) = false)
  \/ ((g =? 1) = false /\ (g =? 2) = true /\ (g =? 3) = false
      /\ (g =? 4) = false)
  \/ ((g =? 1) = false /\ (g =? 2) = false /\ (g =? 3) = true
      /\ (g =? 4) = false)
  \/ ((g =? 1) = false /\ (g =? 2) = false /\ (g =? 3) = false
      /\ (g =? 4) = true)
  \/ ((g =? 1) = false /\ (g =? 2) = false /\ (g =? 3) = false
      /\ (g =? 4) = false).
Proof.
  destruct (Z.eqb_spec g 1), (Z.eqb_spec g 2), (Z.eqb_spec g 3),
    (Z.eqb_spec g 4); try lia; tauto.
Qed.

Lemma copy_whole (gt : list Z) (m n : nat) :
  m = length gt -> (length gt <= n)%nat ->
  copy (replicate m 0) (take n gt) = gt.
Proof.
  intros -> Hn. rewrite take_ge by lia. rewrite copy_make by lia.
  apply take_ge. lia.
Qed.

Ltac split_andb H :=
  repeat match type of H with
         | (_ && _) = true =>
             let H' := fresh "V" in
             apply andb_true_iff in H; destruct H as [H H']
         end.

Lemma ParsePartyAddress_serialize (p : PartyAddress) :
  on_wire p = true ->
  Length p = MarshalLen p - 1 ->
  GlobalTitleInfo (GT p) <> [] \/ gti_variant p = true ->
  ParsePartyAddress (Spec.serialize p) = Returns (Some p, None).
Proof.
  destruct p as [L I SPC SSN [TT NP ES NAI gt]].
  unfold on_wire, gti_variant, MarshalLen, HasPC, HasSSN, GTI.
  unfold ParsePartyAddress, Spec.serialize, Spec.pointCode,
    Spec.subsystemNumber.
  rewrite gtiFields_code, <- land_1_testbit, <- land_shiftr_1_testbit.
  unfold Spec.packed.
  cbv zeta. fields_simpl.
  intros Hwire HL Hne.
  destruct (Z.land I 1 =? 1) eqn:Hpc;
    destruct (Z.land (Z.shiftr I 1) 1 =? 1) eqn:Hssn;
    destruct (gti_cases (Z.land (Z.shiftr I 2) 15))
      as [(E1 & E2 & E3 & E4) | [(E1 & E2 & E3 & E4) | [(E1 & E2 & E3 & E4)
         | [(E1 & E2 & E3 & E4) | (E1 & E2 & E3 & E4)]]]];
    rewrite ?E1, ?E2, ?E3, ?E4 in *; cbn [orb andb] in Hwire;
    split_andb Hwire.
  all: repeat match goal with
         | H : true = true |- _ => clear H
         | H : (_ && _) = true |- _ => split_andb H
         | H : (?x =? 0) = true |- _ => apply Z.eqb_eq in H; subst x
         | H : (0 <=? _) = true |- _ => apply Z.leb_le in H
         | H : (_ <? _) = true |- _ => apply Z.ltb_lt in H
         end.
  all: destruct gt as [|g0 gt];
    [ destruct Hne as [Hne|Hne]; [congruence|];
      apply andb_true_iff in Hne; destruct Hne as [Hlo Hhi];
      apply Z.leb_le in Hlo; apply Z.leb_le in Hhi;
      try (exfalso; apply Z.eqb_neq in E1, E2, E3, E4; lia)
    | clear Hne ].
  all: unfold UnmarshalBinary, new_PartyAddress; run.
  all: cbv [set_Length set_Indicator set_SignalingPointCode
            set_SubsystemNumber set_GT set_TranslationType set_NumberingPlan
            set_EncodingScheme set_NatureOfAddressIndicator
            set_GlobalTitleInfo
            Length Indicator SignalingPointCode SubsystemNumber GT
            TranslationType NumberingPlan EncodingScheme
            NatureOfAddressIndicator GlobalTitleInfo].
  all: rewrite ?bytes_Uint16 by lia.
  all: try match goal with
         | |- context [Z.lor (?np * 16) ?es mod 256] =>
             let U1 := fresh in
             let U2 := fresh in
             pose proof (unpack_pack np es ltac:(lia) ltac:(lia)) as [U1 U2];
             cbv zeta in U1, U2; rewrite U1, U2; clear U1 U2
         end.
  all: rewrite copy_whole by length_lia.
  all: reflexivity.
Qed.

(** ** Truncated encodings *)

(** Every proper prefix of the encoding of a party address whose length
    field counts its bytes is refused as truncated. *)
Lemma UnmarshalBinary_truncated (p q : PartyAddress) (n : nat) :
  Length p = MarshalLen p - 1 ->
  (n < length (Spec.serialize p))%nat ->
  exists q',
    UnmarshalBinary (take n (Spec.serialize p)) q = Err io_ErrUnexpectedEOF q'.
Proof.
  intros HL Hn.
  assert (len (Spec.serialize p) = 1 + Length p) as Hlen
    by (rewrite len_serialize, <- MarshalLen_computeWireLength; lia).
  unfold Spec.serialize in *.
  set (tl := Indicator p :: _) in *. clearbody tl.
  cbn [length] in Hn.
  destruct (Z.lt_ge_cases (Z.of_nat n) 3) as [Hshort|Hlong].
  - exists q. unfold UnmarshalBinary. step. reflexivity.
  - destruct n as [|n]; [lia|]. cbn [take].
    eexists. unfold UnmarshalBinary. do 3 step. reflexivity.
Qed.

(** C2.  Bounds safety of the decoder.  For every buffer, whatever its
    contents and length, [UnmarshalBinary] never indexes or slices outside
    the buffer (the model panics there, and no run panics: this covers the
    subsystem-number byte, read before its check), and so neither does
    [ParsePartyAddress]; on a buffer of fewer than three bytes, or shorter
    than the fields its indicator byte declares, it returns the
    truncated-input error [io.ErrUnexpectedEOF], and so it does on every
    proper prefix of what [MarshalBinary] returns for a value whose length
    field counts its bytes. *)
Theorem UnmarshalBinary_bounds_safe (b : list Z) (p : PartyAddress) :
  UnmarshalBinary b p <> Panic
  /\ ParsePartyAddress b <> Panics
  /\ (len b < 3 ->
      exists p', UnmarshalBinary b p = Err io_ErrUnexpectedEOF p')
  /\ (forall ind, b !! 1%nat = Some ind -> len b < Spec.fixedLength ind ->
      exists p', UnmarshalBinary b p = Err io_ErrUnexpectedEOF p')
  /\ (forall v e n,
        MarshalBinary v = Returns (Some e, None) ->
        Length v = MarshalLen v - 1 ->
        (n < length e)%nat -> b = take n e ->
        exists p', UnmarshalBinary b p = Err io_ErrUnexpectedEOF p').
Proof.
  split; [apply UnmarshalBinary_no_panic|].
  split; [apply ParsePartyAddress_no_panic|].
  split; [|split].
  - intros Hlen. exists p. unfold UnmarshalBinary. step. reflexivity.
  - intros ind. apply UnmarshalBinary_short.
  - intros v e n He HL Hn ->.
    rewrite MarshalBinary_serialize in He. injection He as <-.
    now apply UnmarshalBinary_truncated.
Qed.

Lemma UnmarshalBinary_bounds_safe_witness :
  (len [0x05; 0x13; 0x00; 0x01] < Spec.fixedLength 0x13
   /\ exists p',
        UnmarshalBinary [0x05; 0x13; 0x00; 0x01] new_PartyAddress
        = Err io_ErrUnexpectedEOF p')
  /\ (MarshalBinary scenarioA
      = Returns (Some [0x07; 0x12; 0x06; 0x00; 0x12; 0x03; 0x21; 0x43], None)
      /\ exists p',
           UnmarshalBinary [0x07; 0x12; 0x06; 0x00; 0x12; 0x03; 0x21]
             new_PartyAddress
           = Err io_ErrUnexpectedEOF p').
Proof.
  split; (split; [reflexivity|]).
  - destruct (UnmarshalBinary_bounds_safe [0x05; 0x13; 0x00; 0x01]
                new_PartyAddress) as (_ & _ & _ & Hshort & _).
    apply (Hshort 0x13); reflexivity.
  - destruct (UnmarshalBinary_bounds_safe
                [0x07; 0x12; 0x06; 0x00; 0x12; 0x03; 0x21]
                new_PartyAddress) as (_ & _ & _ & _ & Htrunc).
    apply (Htrunc scenarioA
             [0x07; 0x12; 0x06; 0x00; 0x12; 0x03; 0x21; 0x43] 7%nat);
      [reflexivity | reflexivity | cbn [length]; lia | reflexivity].
Defined.

(** ** What the round trip needs *)

(** A field the indicator leaves out of the wire does not come back, and a
    half octet wider than four bits comes back masked. *)
Example roundtrip_drops_absent_fields :
  roundtrip (NewPartyAddress 0x12 5 6 0 1 2 3 [0x21; 0x43])
  = Returns (Some (NewPartyAddress 0x12 0 6 0 1 2 3 [0x21; 0x43]), None)
  /\ roundtrip (NewPartyAddress 0x12 0 6 0 17 2 3 [0x21; 0x43])
     = Returns (Some (NewPartyAddress 0x12 0 6 0 1 2 3 [0x21; 0x43]), None).
Proof. split; vm_compute; reflexivity. Qed.

(** Without digits and without a GTI 1 to 4 header the encoding ends on the
    indicator, the point code or the subsystem number, and the decoder, which
    wants a byte after each of them, refuses it. *)
Lemma roundtrip_refused (p : PartyAddress) :
  Length p = MarshalLen p - 1 ->
  GlobalTitleInfo (GT p) = [] -> gti_variant p = false ->
  roundtrip p = Returns (None, Some io_ErrUnexpectedEOF).
Proof.
  destruct p as [L I SPC SSN [TT NP ES NAI gt]].
  unfold gti_variant, MarshalLen, HasPC, HasSSN, GTI, roundtrip.
  rewrite MarshalBinary_serialize.
  unfold ParsePartyAddress, Spec.serialize, Spec.pointCode,
    Spec.subsystemNumber.
  rewrite gtiFields_code, <- land_1_testbit, <- land_shiftr_1_testbit.
  cbv zeta. fields_simpl.
  intros HL -> Hgti.
  apply andb_false_iff in Hgti.
  destruct (Z.land I 1 =? 1) eqn:Hpc;
    destruct (Z.land (Z.shiftr I 1) 1 =? 1) eqn:Hssn;
    destruct (gti_cases (Z.land (Z.shiftr I 2) 15))
      as [(E1 & E2 & E3 & E4) | [(E1 & E2 & E3 & E4) | [(E1 & E2 & E3 & E4)
         | [(E1 & E2 & E3 & E4) | (E1 & E2 & E3 & E4)]]]];
    try (exfalso;
         first [apply Z.eqb_eq in E1 | apply Z.eqb_eq in E2
               | apply Z.eqb_eq in E3 | apply Z.eqb_eq in E4];
         destruct Hgti as [Hgti|Hgti];
         [apply Z.leb_gt in Hgti | apply Z.leb_gt in Hgti]; lia);
    rewrite ?E1, ?E2, ?E3, ?E4 in *.
  all: unfold UnmarshalBinary, new_PartyAddress; run; reflexivity.
Qed.

(** C1, as stated, fails.  The party address with indicator 0 and no digits
    (scenario B of the specification), built by the constructor, serializes
    to the two bytes [01 00], which the decoder refuses for being fewer than
    three: the round trip ends in [io.ErrUnexpectedEOF].  And with point
    code, subsystem number, GTI 4 and 250 digit bytes the serialization has
    258 bytes, the length byte wraps to 1, and the round trip ends in the
    length-misfit error. *)
Lemma roundtrip_counterexample :
  let v := NewPartyAddress 0 0 0 0 0 0 0 [] in
  let w := NewPartyAddress 0x13 0 0 0 0 0 0 (replicate 250 0) in
  (on_wire v = true
   /\ SetLength v = v
   /\ MarshalBinary v = Returns (Some [0x01; 0x00], None)
   /\ roundtrip v = Returns (None, Some io_ErrUnexpectedEOF)
   /\ roundtrip v <> Returns (Some v, None))
  /\ (on_wire w = true
      /\ SetLength w = w
      /\ MarshalLen w = 258 /\ Length w = 1
      /\ roundtrip w = Returns (None, Some ErrLengthMisfit)
      /\ roundtrip w <> Returns (Some w, None)).
Proof. cbv zeta. repeat split; vm_compute; congruence. Qed.

(** C1, amended.  Round trip.  Let [p] be a party address that holds only
    what its indicator puts on the wire (a field the indicator leaves out is
    zero, the point code fits 16 bits, numbering plan and encoding scheme fit
    4 bits), with its length field set by [SetLength] or the constructor, a
    serialization of at most 256 bytes, and digits that are not empty unless
    the GTI is one of 1 to 4.  Then parsing the bytes [MarshalBinary] returns
    succeeds and gives [p] back in all fields, and the length field is
    [MarshalLen() - 1]. *)
Theorem roundtrip_on_wire (p : PartyAddress) :
  on_wire p = true ->
  SetLength p = p ->
  MarshalLen p <= 256 ->
  GlobalTitleInfo (GT p) <> [] \/ gti_variant p = true ->
  roundtrip p = Returns (Some p, None) /\ Length p = MarshalLen p - 1.
Proof.
  intros Hwire Hset Hfit Hne.
  assert (Length p = MarshalLen p - 1) as HL.
  { rewrite SetLength_MarshalLen in Hset.
    apply (f_equal Length) in Hset. cbn [Length set_Length] in Hset.
    rewrite <- Hset. apply uint8_small.
    pose proof (MarshalLen_ge_2 p). lia. }
  split; [|exact HL].
  unfold roundtrip. rewrite MarshalBinary_serialize.
  now apply ParsePartyAddress_serialize.
Qed.

Lemma roundtrip_on_wire_witness :
  roundtrip scenarioA = Returns (Some scenarioA, None)
  /\ Length scenarioA = MarshalLen scenarioA - 1.
Proof.
  apply (roundtrip_on_wire scenarioA).
  - reflexivity.
  - reflexivity.
  - vm_compute. discriminate.
  - left. discriminate.
Defined.

(** The round trip at the largest size: point code, subsystem number, GTI 4
    and 248 digit bytes make 256 bytes. *)
Example roundtrip_256_bytes :
  let p := NewPartyAddress 0x13 0x1234 8 0 1 2 4 (replicate 248 0x21) in
  MarshalLen p = 256 /\ roundtrip p = Returns (Some p, None).
Proof. cbv zeta. split; vm_compute; reflexivity. Qed.

(** C8.  The digit-string accessor.  The guard of [GTString], as written,
    is not a boolean expression: it compares a slice with a constant and
    takes the length of the comparison, which the typing rules reject, so
    the function yields no string for any party address.  With the closing
    parenthesis of [len] moved in front of the comparison the function is
    what the specification describes: the empty string when there are no
    digits, and otherwise [SwappedBytesToStr] applied to the digit bytes and
    to [EncodingScheme == 1]. *)
Theorem GTString_guard_rejected
  (SwappedBytesToStr : list Z -> bool -> string) (p : PartyAddress) :
  GoGuard.typeof GoGuard.guard = None
  /\ GTString SwappedBytesToStr p = None
  /\ GTString_with SwappedBytesToStr GoGuard.guard_moved p
     = Some (match GlobalTitleInfo (GT p) with
             | [] => EmptyString
             | _ :: _ =>
                 SwappedBytesToStr (GlobalTitleInfo (GT p))
                   (EncodingScheme (GT p) =? 1)
             end).
Proof.
  split; [reflexivity|]. split; [reflexivity|].
  unfold GTString_with, IsOddDigits. cbn.
  destruct (GlobalTitleInfo (GT p)) as [|g gt]; [reflexivity|].
  unfold len. cbn [length].
  destruct (Z.ltb_spec 0 (Z.of_nat (S (length gt)))); [reflexivity|lia].
Qed.

(** ** The encoder on a buffer of the caller *)

Lemma store_panic (i v : Z) (b : list Z) :
  ~ 0 <= i < len b -> store i v b = Panic.
Proof.
  intros Hi. unfold store.
  destruct (Z.leb_spec 0 i), (Z.ltb_spec i (len b)); cbn [andb];
    try reflexivity. lia.
Qed.

Lemma slice_panic {S : Type} (b : list Z) (lo hi : Z) (s : S) :
  ~ (0 <= lo <= hi /\ hi <= len b) -> slice b lo hi s = Panic.
Proof.
  intros H. unfold slice.
  destruct (Z.leb_spec 0 lo), (Z.leb_spec lo hi), (Z.leb_spec hi (len b));
    cbn [andb]; try reflexivity. lia.
Qed.

Lemma copy_exact (dst src : list Z) :
  length dst = length src -> copy dst src = src.
Proof.
  intros H. unfold copy. rewrite H, take_ge by lia.
  rewrite drop_ge by lia. apply app_nil_r.
Qed.

(** A step that may also run into a panic. *)
Ltac step_at_p t :=
  lazymatch t with
  | match ?x with Cont _ _ => _ | Err _ _ => _ | Panic => _ end => step_at_p x
  | (if ?c then _ else _) _ => decide_cond c
  | index ?b ?i ?s =>
      first [ rewrite (index_ok b i s) by len_lia
            | rewrite (index_panic b i s) by len_lia ]
  | slice ?b ?lo ?hi ?s =>
      first [ rewrite (slice_ok b lo hi s) by len_lia
            | rewrite (slice_panic b lo hi s) by len_lia ]
  | make ?n ?s => rewrite (make_ok n s) by len_lia
  | store ?i ?v ?b =>
      first [ rewrite (store_ok i v b) by len_lia
            | rewrite (store_panic i v b) by len_lia ]
  end.

Ltac step_p :=
  flow_simpl;
  match goal with
  | |- context [match ?x with Cont _ _ => _ | Err _ _ => _ | Panic => _ end] =>
      step_at_p x
  end.

Ltac run_p := repeat step_p; flow_simpl.

(** The first [n] cells of a buffer, one shape for each shorter length. *)
Ltac open_buffer b n :=
  lazymatch n with
  | O => idtac
  | S ?m =>
      let c := fresh "c" in
      destruct b as [|c b]; [|open_buffer b m]
  end.

Ltac indicator_cases p :=
  destruct (Z.land (Indicator p) 1 =? 1) eqn:Hpc;
  destruct (Z.land (Z.shiftr (Indicator p) 1) 1 =? 1) eqn:Hssn;
  (destruct (Z.land (Z.shiftr (Indicator p) 2) 15 =? 1) eqn:Hg1;
   [|destruct (Z.land (Z.shiftr (Indicator p) 2) 15 =? 2) eqn:Hg2;
     [|destruct (Z.land (Z.shiftr (Indicator p) 2) 15 =? 3) eqn:Hg3;
       [|destruct (Z.land (Z.shiftr (Indicator p) 2) 15 =? 4) eqn:Hg4]]]).

Lemma MarshalTo_fits (p : PartyAddress) (b : list Z) :
  MarshalLen p <= len b ->
  MarshalTo p b
  = Cont tt (Spec.serialize p ++ drop (Z.to_nat (MarshalLen p)) b).
Proof.
  unfold Spec.serialize, Spec.subsystemNumber.
  rewrite gtiFields_code, pointCode_code, <- land_shiftr_1_testbit.
  cbv zeta. rewrite <- packed_code.
  unfold MarshalTo, MarshalLen, HasPC, HasSSN, GTI.
  indicator_cases p; intros Hfit.
  all: match type of Hfit with
       | ?e <= _ =>
           let k := const_part e in
           let n := eval cbv in (Z.to_nat k) in
           replace (Z.to_nat e)
             with (n + length (GlobalTitleInfo (GT p)))%nat
             by (unfold len; lia);
           open_buffer b n; try (exfalso; length_lia)
       end.
  all: run.
  all: cbn [insert list_insert take drop app Nat.add].
  all: repeat (f_equal; []).
  all: rewrite ?drop_0; cbn [take app].
  all: match goal with
       | |- context [drop (Z.to_nat ?e) (_ :: _)] =>
           let k := const_part e in
           let n := eval cbv in (Z.to_nat k) in
           replace (Z.to_nat e)
             with (n + length (GlobalTitleInfo (GT p)))%nat
             by (unfold len; lia);
           cbn [drop Nat.add]
       | _ => idtac
       end.
  all: rewrite copy_exact by (rewrite length_take; length_lia).
  all: reflexivity.
Qed.

Lemma MarshalTo_short (p : PartyAddress) (b : list Z) :
  len b < MarshalLen p -> MarshalTo p b = Panic.
Proof.
  unfold MarshalTo, MarshalLen, HasPC, HasSSN, GTI.
  indicator_cases p; intros Hshort.
  all: match type of Hshort with
       | _ < ?e =>
           let k := const_part e in
           let n := eval cbv in (Z.to_nat k) in
           open_buffer b n
       end.
  all: run_p.
  all: reflexivity.
Qed.


(** ** Which buffers the decoder accepts *)

Lemma UnmarshalBinary_accepts_or_fails
  (l ind : Z) (rest : list Z) (p : PartyAddress) :
  let b := l :: ind :: rest in
  let accepted :=
    l < len b /\ Spec.fixedLength ind <= 1 + l
    /\ (1 <= Z.land (Z.shiftr ind 2) 15 <= 4 \/ Spec.fixedLength ind < len b) in
  (accepted /\ exists q, UnmarshalBinary b p = Cont tt q)
  \/ (~ accepted /\ exists e q, UnmarshalBinary b p = Err e q).
Proof.
  intros b accepted. subst b accepted.
  generalize (eq_refl (UnmarshalBinary (l :: ind :: rest) p)).
  generalize (UnmarshalBinary (l :: ind :: rest) p) at 1 3 4.
  intros r. rewrite fixedLength_code. cbv zeta.
  unfold UnmarshalBinary. run.
  all: intros ->.
  all: use_conds.
  all: repeat match goal with
         | |- context [if ?c then _ else _] =>
             let E := fresh "C" in destruct c eqn:E; cond_to_prop E
         end.
  all: first
         [ left; split; [len_lia | eexists; reflexivity]
         | right; split; [len_lia | do 2 eexists; reflexivity] ].
Qed.

(** ** How the decoder fails, and what it leaves behind *)

Lemma UnmarshalBinary_ends (b : list Z) (p : PartyAddress) :
  forall r, r = UnmarshalBinary b p ->
  match r with
  | Cont _ q =>
      b !! 0%nat = Some (Length q) /\ b !! 1%nat = Some (Indicator q)
      /\ Length q < len b
      /\ (HasPC q = false -> SignalingPointCode q = SignalingPointCode p)
      /\ (HasSSN q = false -> SubsystemNumber q = SubsystemNumber p)
      /\ (GTI q <> 2 -> GTI q <> 3 -> GTI q <> 4 ->
          TranslationType (GT q) = TranslationType (GT p))
      /\ (GTI q <> 3 -> GTI q <> 4 ->
          NumberingPlan (GT q) = NumberingPlan (GT p)
          /\ EncodingScheme (GT q) = EncodingScheme (GT p))
      /\ (GTI q <> 1 -> GTI q <> 4 ->
          NatureOfAddressIndicator (GT q) = NatureOfAddressIndicator (GT p))
  | Err e q =>
      (e = io_ErrUnexpectedEOF \/ e = ErrLengthMisfit)
      /\ GlobalTitleInfo (GT q) = GlobalTitleInfo (GT p)
  | Panic => False
  end.
Proof.
  intros r. unfold UnmarshalBinary.
  destruct b as [|l [|ind rest]]; run.
  all: intros ->.
  all: try (split; [first [left; reflexivity | right; reflexivity]
                   | reflexivity]).
  all: unfold HasPC, HasSSN, GTI; fields_simpl.
  all: repeat split; try reflexivity; try assumption; intros;
    try congruence; try lia.
Qed.

(** ** The values the decoder returns *)

Lemma nth_uint8 (l : list Z) (i : nat) :
  Forall is_uint8 l -> 0 <= nth i l 0 < 256.
Proof.
  intros Hl. revert i. induction Hl as [|x l Hx _ IH]; intros [|i]; cbn [nth];
    try (unfold is_uint8 in Hx; change (2 ^ 8) with 256 in Hx); try lia.
  apply IH.
Qed.

Ltac all_fields :=
  cbv [set_Length set_Indicator set_SignalingPointCode
       set_SubsystemNumber set_GT set_TranslationType set_NumberingPlan
       set_EncodingScheme set_NatureOfAddressIndicator
       set_GlobalTitleInfo
       Length Indicator SignalingPointCode SubsystemNumber GT
       TranslationType NumberingPlan EncodingScheme
       NatureOfAddressIndicator GlobalTitleInfo].

Lemma UnmarshalBinary_on_wire (b : list Z) (q : PartyAddress) :
  Forall is_uint8 b ->
  UnmarshalBinary b new_PartyAddress = Cont tt q ->
  on_wire q = true.
Proof.
  intros Hb H. revert H. unfold UnmarshalBinary, new_PartyAddress.
  run. all: intros [= <-].
  all: unfold on_wire, HasPC, HasSSN, GTI; all_fields; use_conds.
  all: try match goal with
         | P : Z.land (Z.shiftr _ 2) 15 = _ |- _ => rewrite !P
         end.
  all: repeat match goal with
         | H : ?c = true |- context [?c] => rewrite H
         | H : ?c = false |- context [?c] => rewrite H
         end.
  all: cbn [Z.eqb Pos.eqb orb andb].
  all: repeat match goal with
         | |- (_ && _) = true => apply andb_true_intro; split
         | |- (0 <=? _) = true => apply Z.leb_le
         | |- (_ <? _) = true => apply Z.ltb_lt
         | |- true = true => reflexivity
         end.
  all: try apply land_15_range.
  all: try match goal with
         | |- context [Z.lor ?s1 (uint16 (Z.shiftl ?s0 8))] =>
             pose proof (Uint16_bytes s0 s1
                           ltac:(apply nth_uint8, Forall_take, Forall_drop, Hb)
                           ltac:(apply nth_uint8, Forall_take, Forall_drop, Hb))
               as (_ & _ & Hv); cbv zeta in Hv; lia
         end.
  all: lia.
Qed.

(** ** Bytes after the parameter *)

Lemma index_app {S : Type} (b extra : list Z) (i : Z) (s : S) :
  0 <= i < len b ->
  index (b ++ extra) i s = Cont (nth (Z.to_nat i) b 0) s.
Proof.
  intros Hi. rewrite index_ok by len_lia.
  rewrite app_nth1 by (unfold len in Hi; lia). reflexivity.
Qed.

Lemma slice_app {S : Type} (b extra : list Z) (lo hi : Z) (s : S) :
  0 <= lo <= hi -> hi <= len b ->
  slice (b ++ extra) lo hi s
  = Cont (take (Z.to_nat (hi - lo)) (drop (Z.to_nat lo) b)) s.
Proof.
  intros H1 H2. rewrite slice_ok by len_lia.
  rewrite drop_app_le by (unfold len in H2; lia).
  rewrite take_app_le by (rewrite length_drop; unfold len in H2; lia).
  reflexivity.
Qed.

Lemma copy_digits (b : list Z) (m n k : nat) :
  (m + n <= length b)%nat -> (length b - n <= k)%nat ->
  copy (replicate m 0) (take k (drop n b)) = take m (drop n b).
Proof.
  intros Hm Hk. rewrite take_ge by (rewrite length_drop; lia).
  apply copy_make. rewrite length_drop. lia.
Qed.

Lemma copy_digits_app (b extra : list Z) (m n k : nat) :
  (m + n <= length b)%nat -> (length b + length extra - n <= k)%nat ->
  copy (replicate m 0) (take k (drop n (b ++ extra))) = take m (drop n b).
Proof.
  intros Hm Hk.
  rewrite take_ge by (rewrite length_drop, length_app; lia).
  rewrite copy_make by (rewrite length_drop, length_app; lia).
  rewrite drop_app_le by lia.
  apply take_app_le. rewrite length_drop. lia.
Qed.

Ltac step_at_app t :=
  lazymatch t with
  | match ?x with Cont _ _ => _ | Err _ _ => _ | Panic => _ end =>
      step_at_app x
  | (if ?c then _ else _) _ => decide_cond c
  | index (?b ++ ?e) ?i ?s => rewrite (index_app b e i s) by len_lia
  | slice (?b ++ ?e) ?lo ?hi ?s =>
      first [ rewrite (slice_app b e lo hi s) by len_lia
            | rewrite (slice_ok (b ++ e) lo hi s) by len_lia ]
  | index ?b ?i ?s => rewrite (index_ok b i s) by len_lia
  | make ?n ?s => rewrite (make_ok n s) by len_lia
  end.

Ltac step_app :=
  flow_simpl;
  match goal with
  | |- context [match ?x with Cont _ _ => _ | Err _ _ => _ | Panic => _ end] =>
      step_at_app x
  end.

Lemma UnmarshalBinary_app (b extra : list Z) (p q : PartyAddress) :
  UnmarshalBinary b p = Cont tt q ->
  UnmarshalBinary (b ++ extra) p = Cont tt q.
Proof.
  set (G := UnmarshalBinary (b ++ extra) p).
  unfold UnmarshalBinary. run.
  all: try (intros H; discriminate H).
  all: intros [= <-]; subst G; unfold UnmarshalBinary.
  all: repeat step_app; flow_simpl.
  all: rewrite (copy_digits_app b extra) by len_lia.
  all: rewrite (copy_digits b) by len_lia.
  all: reflexivity.
Qed.

(** ** The round trip of any value *)

Lemma unpack_any (np es : Z) :
  let x := Z.lor (np * 16) es mod 256 in
  Z.land (Z.shiftr x 4) 15 = Z.land (Z.lor np (Z.shiftr es 4)) 15
  /\ Z.land x 15 = Z.land es 15.
Proof.
  cbv zeta. change (np * 16) with (np * 2 ^ 4).
  rewrite <- Z.shiftl_mul_pow2 by lia. change 256 with (2 ^ 8).
  split; apply Z.bits_inj'; intros n Hn;
    rewrite !Z.land_spec; change 15 with (Z.ones 4);
    destruct (Z.lt_ge_cases n 4).
  - rewrite Z.shiftr_spec by lia.
    rewrite Z.mod_pow2_bits_low by lia.
    rewrite !Z.lor_spec, Z.shiftl_spec, Z.shiftr_spec by lia.
    now replace (n + 4 - 4) with n by lia.
  - rewrite Z.ones_spec_high by lia. now rewrite !andb_false_r.
  - rewrite Z.mod_pow2_bits_low by lia.
    rewrite Z.lor_spec, Z.shiftl_spec_low by lia. reflexivity.
  - rewrite Z.ones_spec_high by lia. now rewrite !andb_false_r.
Qed.

Lemma bytes_Uint16_mod (v : Z) :
  Z.lor (v mod 256) (uint16 (Z.shiftl (v / 256 mod 256) 8)) = v mod 2 ^ 16.
Proof.
  rewrite <- (bytes_Uint16 (v mod 2 ^ 16)) by (apply Z.mod_pos_bound; lia).
  assert (v mod 2 ^ 16 mod 256 = v mod 256) as ->.
  { change (2 ^ 16) with (256 * 256).
    rewrite Z.rem_mul_r by lia.
    rewrite (Z.mul_comm 256 (_ mod 256)), Z.mod_add by lia.
    apply Z.mod_mod. lia. }
  assert (v mod 2 ^ 16 / 256 mod 256 = v / 256 mod 256) as ->.
  { change (2 ^ 16) with (256 * 256).
    rewrite Z.rem_mul_r by lia.
    rewrite (Z.mul_comm 256 (_ mod 256)), Z.div_add by lia.
    rewrite (Z.div_small (v mod 256)) by (apply Z.mod_pos_bound; lia).
    cbn [Z.add]. apply Z.mod_mod. lia. }
  reflexivity.
Qed.

Lemma copy_take (l : list Z) (m k : nat) :
  (m <= length l)%nat -> (length l <= k)%nat ->
  copy (replicate m 0) (take k l) = take m l.
Proof.
  intros Hm Hk. rewrite take_ge by lia. now apply copy_make.
Qed.

Ltac prop_copy H :=
  let P := fresh "P" in pose proof H as P; cond_to_prop P.

Lemma roundtrip_serialize (p : PartyAddress) :
  ParsePartyAddress (Spec.serialize p)
  = if (MarshalLen p <=? Length p)
       || (negb (gti_variant p) && (len (GlobalTitleInfo (GT p)) =? 0))
    then Returns (None, Some io_ErrUnexpectedEOF)
    else if 1 + Length p <? MarshalLen p - len (GlobalTitleInfo (GT p))
    then Returns (None, Some ErrLengthMisfit)
    else Returns (Some (wire_image p), None).
Proof.
  destruct p as [L I SPC SSN [TT NP ES NAI gt]].
  unfold wire_image, gti_variant, MarshalLen, HasPC, HasSSN, GTI.
  unfold ParsePartyAddress, Spec.serialize, Spec.pointCode,
    Spec.subsystemNumber.
  rewrite gtiFields_code, <- land_1_testbit, <- land_shiftr_1_testbit.
  unfold Spec.packed.
  cbv zeta. fields_simpl.
  destruct (Z.land I 1 =? 1) eqn:Hpc;
    destruct (Z.land (Z.shiftr I 1) 1 =? 1) eqn:Hssn;
    destruct (gti_cases (Z.land (Z.shiftr I 2) 15))
      as [(E1 & E2 & E3 & E4) | [(E1 & E2 & E3 & E4) | [(E1 & E2 & E3 & E4)
         | [(E1 & E2 & E3 & E4) | (E1 & E2 & E3 & E4)]]]];
    rewrite ?E1, ?E2, ?E3, ?E4; cbn [orb andb];
    prop_copy E1; prop_copy E2; prop_copy E3; prop_copy E4.
  all: destruct gt as [|g0 gt].
  all: repeat match goal with
         | |- _ = (if ?c then _ else _) =>
             match c with
             | context [?a <=? ?b] => decide_cond (a <=? b)
             | context [?a =? ?b] => decide_cond (a =? b)
             | context [?a <? ?b] => decide_cond (a <? b)
             end
         | _ => progress cbn [orb andb negb]
         end.
  all: unfold UnmarshalBinary, new_PartyAddress; run.
  all: try reflexivity.
  all: all_fields.
  all: rewrite ?bytes_Uint16_mod.
  all: try match goal with
         | |- context [Z.lor (?np * 16) ?es mod 256] =>
             let U1 := fresh in
             let U2 := fresh in
             pose proof (unpack_any np es) as [U1 U2];
             cbv zeta in U1, U2; rewrite U1, U2; clear U1 U2
         end.
  all: first [ rewrite copy_take by length_lia
             | rewrite copy_make by length_lia ].
  all: repeat f_equal; length_lia.
Qed.

(** ** Properties beyond the specification's list *)

Lemma ParsePartyAddress_Some (b : list Z) (q : PartyAddress) :
  ParsePartyAddress b = Returns (Some q, None) ->
  UnmarshalBinary b new_PartyAddress = Cont tt q.
Proof.
  unfold ParsePartyAddress.
  destruct (UnmarshalBinary b new_PartyAddress) as [[] r|e r|];
    intros H; now inversion H.
Qed.

Lemma MarshalLen_le (p : PartyAddress) :
  MarshalLen p <= 8 + len (GlobalTitleInfo (GT p)).
Proof.
  unfold MarshalLen.
  repeat match goal with
         | |- context [if ?c then _ else _] => destruct c
         end; lia.
Qed.

Lemma low_bits_predicates (i j : Z) :
  Z.land i 63 = Z.land j 63 ->
  Z.land i 1 = Z.land j 1
  /\ Z.land (Z.shiftr i 1) 1 = Z.land (Z.shiftr j 1) 1
  /\ Z.land (Z.shiftr i 2) 15 = Z.land (Z.shiftr j 2) 15.
Proof.
  intros H.
  assert (forall n, 0 <= n < 6 -> Z.testbit i n = Z.testbit j n) as Hbits.
  { intros n Hn. apply (f_equal (fun x => Z.testbit x n)) in H.
    rewrite !Z.land_spec in H. change 63 with (Z.ones 6) in H.
    rewrite Z.ones_spec_low in H by lia. now rewrite !andb_true_r in H. }
  repeat split; apply Z.bits_inj'; intros n Hn;
    rewrite !Z.land_spec, ?Z.shiftr_spec by lia.
  - destruct (Z.eq_dec n 0) as [->|]; [now rewrite Hbits by lia|].
    change 1 with (Z.ones 1). rewrite Z.ones_spec_high by lia.
    now rewrite !andb_false_r.
  - destruct (Z.eq_dec n 0) as [->|]; [now rewrite Hbits by lia|].
    change 1 with (Z.ones 1) at 2 4. rewrite Z.ones_spec_high by lia.
    now rewrite !andb_false_r.
  - destruct (Z.lt_ge_cases n 4); [now rewrite Hbits by lia|].
    change 15 with (Z.ones 4). rewrite Z.ones_spec_high by lia.
    now rewrite !andb_false_r.
Qed.



(** X2.  [MarshalTo] never returns an error, and on a buffer with no spare
    capacity it panics exactly when the buffer is shorter than
    [MarshalLen()]. *)
Theorem MarshalTo_panics_iff_short (p : PartyAddress) (b : list Z) :
  (MarshalTo p b = Panic <-> len b < MarshalLen p)
  /\ (forall e s, MarshalTo p b <> Err e s).
Proof.
  destruct (Z.lt_ge_cases (len b) (MarshalLen p)) as [Hshort|Hfit].
  - rewrite MarshalTo_short by exact Hshort.
    split; [tauto|discriminate].
  - rewrite MarshalTo_fits by lia.
    split; [|discriminate]. split; [discriminate|lia].
Qed.

Lemma MarshalTo_panics_iff_short_witness :
  MarshalTo scenarioA [0x00; 0x00; 0x00; 0x00; 0x00; 0x00; 0x00] = Panic.
Proof.
  destruct (MarshalTo_panics_iff_short scenarioA
              [0x00; 0x00; 0x00; 0x00; 0x00; 0x00; 0x00]) as [[_ Hshort] _].
  apply Hshort. reflexivity.
Defined.

(** X3.  The buffers the decoder accepts.  [UnmarshalBinary] succeeds
    exactly on a buffer whose length byte is below the buffer length and
    covers the fixed fields its indicator declares, and which either has a
    GTI of 1 to 4 or is longer than those fixed fields. *)
Theorem UnmarshalBinary_accepts (b : list Z) (p : PartyAddress) :
  (exists q, UnmarshalBinary b p = Cont tt q)
  <-> (exists l ind,
         b !! 0%nat = Some l /\ b !! 1%nat = Some ind
         /\ l < len b /\ Spec.fixedLength ind <= 1 + l
         /\ (1 <= Z.land (Z.shiftr ind 2) 15 <= 4
             \/ Spec.fixedLength ind < len b)).
Proof.
  destruct b as [|l [|ind rest]].
  - split; [intros [q H]|intros (l & ind & H & _); discriminate H].
    revert H. unfold UnmarshalBinary. step. discriminate.
  - split; [intros [q H]|intros (l' & ind & _ & H & _); discriminate H].
    revert H. unfold UnmarshalBinary. step. discriminate.
  - destruct (UnmarshalBinary_accepts_or_fails l ind rest p)
      as [[Hacc Hq] | [Hrej (e & q & He)]]; cbv zeta in *.
    + split; [intros _|intros _; exact Hq].
      exists l, ind. split; [reflexivity|]. split; [reflexivity|]. exact Hacc.
    + split.
      * intros [q' Hq']. rewrite He in Hq'. discriminate.
      * intros (l' & ind' & [= <-] & [= <-] & Hacc). now exfalso.
Qed.

Lemma UnmarshalBinary_accepts_witness :
  exists q, UnmarshalBinary [0x02; 0x04; 0x7f] new_PartyAddress = Cont tt q.
Proof.
  apply (UnmarshalBinary_accepts [0x02; 0x04; 0x7f] new_PartyAddress).
  exists 0x02, 0x04.
  split; [reflexivity|]. split; [reflexivity|].
  split; [reflexivity|]. split; [vm_compute; discriminate|].
  left. vm_compute. split; discriminate.
Defined.

(** X4.  A failed [UnmarshalBinary] returns one of two errors,
    [io.ErrUnexpectedEOF] or the length-misfit error, and has not touched
    the digits of its receiver. *)
Theorem UnmarshalBinary_failure
  (b : list Z) (p q : PartyAddress) (e : error) :
  UnmarshalBinary b p = Err e q ->
  (e = io_ErrUnexpectedEOF \/ e = ErrLengthMisfit)
  /\ GlobalTitleInfo (GT q) = GlobalTitleInfo (GT p).
Proof.
  intros H. pose proof (UnmarshalBinary_ends b p _ eq_refl) as Hend.
  rewrite H in Hend. exact Hend.
Qed.

Lemma UnmarshalBinary_failure_witness :
  (ErrLengthMisfit = io_ErrUnexpectedEOF \/ ErrLengthMisfit = ErrLengthMisfit)
  /\ GlobalTitleInfo
       (GT (set_TranslationType 0x00
              (set_Indicator 0x08 (set_Length 0x01 scenarioA))))
     = GlobalTitleInfo (GT scenarioA).
Proof.
  apply (UnmarshalBinary_failure [0x01; 0x08; 0x00; 0x21] scenarioA).
  reflexivity.
Defined.

(** X5.  What [ParsePartyAddress] returns from a buffer of bytes is well
    formed: fields the indicator leaves out are zero, the point code fits 16
    bits and the half octets 4 bits, the digits are bytes, the length field
    is [MarshalLen() - 1] (so [SetLength] changes nothing), and the value
    serializes to at most 256 bytes, no more than the buffer held. *)
Theorem ParsePartyAddress_value (b : list Z) (q : PartyAddress) :
  Forall is_uint8 b ->
  ParsePartyAddress b = Returns (Some q, None) ->
  on_wire q = true
  /\ Forall is_uint8 (GlobalTitleInfo (GT q))
  /\ Length q = MarshalLen q - 1
  /\ SetLength q = q
  /\ MarshalLen q <= 256 /\ MarshalLen q <= len b.
Proof.
  intros Hb Hq. apply ParsePartyAddress_Some in Hq.
  pose proof (UnmarshalBinary_on_wire b q Hb Hq) as Hwire.
  destruct (UnmarshalBinary_reencode b _ q Hb Hq) as [Hser Hlen].
  rewrite <- MarshalLen_computeWireLength in Hlen.
  pose proof (UnmarshalBinary_ends b new_PartyAddress _ eq_refl) as Hend.
  rewrite Hq in Hend. destruct Hend as (H0 & _ & Hlt & _).
  pose proof (nth_uint8 b 0 Hb) as Hbyte.
  assert (nth 0 b 0 = Length q) as HL
    by (now apply nth_lookup_Some with (d := 0) in H0).
  split; [exact Hwire|]. split; [|split; [lia|split; [|lia]]].
  - assert (Forall is_uint8 (Spec.serialize q)) as Hall
      by (rewrite Hser; now apply Forall_take).
    unfold Spec.serialize in Hall.
    apply Forall_cons in Hall as [_ Hall].
    apply Forall_cons in Hall as [_ Hall].
    now rewrite !Forall_app in Hall.
  - rewrite SetLength_MarshalLen.
    replace (MarshalLen q - 1) with (Length q) by lia.
    rewrite uint8_small by lia. now destruct q.
Qed.

Lemma ParsePartyAddress_value_witness :
  on_wire scenarioA = true
  /\ Forall is_uint8 (GlobalTitleInfo (GT scenarioA))
  /\ Length scenarioA = MarshalLen scenarioA - 1
  /\ SetLength scenarioA = scenarioA
  /\ MarshalLen scenarioA <= 256
  /\ MarshalLen scenarioA
     <= len [0x07; 0x12; 0x06; 0x00; 0x12; 0x03; 0x21; 0x43; 0xff].
Proof.
  apply (ParsePartyAddress_value
           [0x07; 0x12; 0x06; 0x00; 0x12; 0x03; 0x21; 0x43; 0xff]).
  - repeat constructor; unfold is_uint8; lia.
  - reflexivity.
Defined.

(** X6.  Serializing what [ParsePartyAddress] returned from a buffer of
    bytes gives back the bytes it consumed, the first [1 + b[0]] of the
    buffer; a buffer of exactly that length comes back whole. *)
Theorem MarshalBinary_after_parse (b : list Z) (q : PartyAddress) :
  Forall is_uint8 b ->
  ParsePartyAddress b = Returns (Some q, None) ->
  exists l,
    b !! 0%nat = Some l
    /\ MarshalBinary q = Returns (Some (take (Z.to_nat (1 + l)) b), None)
    /\ (len b = 1 + l -> MarshalBinary q = Returns (Some b, None)).
Proof.
  intros Hb Hq. apply ParsePartyAddress_Some in Hq.
  destruct (UnmarshalBinary_reencode b _ q Hb Hq) as [Hser _].
  pose proof (UnmarshalBinary_ends b new_PartyAddress _ eq_refl) as Hend.
  rewrite Hq in Hend. destruct Hend as (H0 & _).
  exists (Length q). split; [exact H0|].
  rewrite MarshalBinary_serialize, Hser. split; [reflexivity|].
  intros Hexact. rewrite take_ge by (unfold len in Hexact; lia). reflexivity.
Qed.

Lemma MarshalBinary_after_parse_witness :
  exists l,
    [0x07; 0x12; 0x06; 0x00; 0x12; 0x03; 0x21; 0x43; 0xff] !! 0%nat = Some l
    /\ MarshalBinary scenarioA
       = Returns
           (Some (take (Z.to_nat (1 + l))
                    [0x07; 0x12; 0x06; 0x00; 0x12; 0x03; 0x21; 0x43; 0xff]),
            None)
    /\ (len [0x07; 0x12; 0x06; 0x00; 0x12; 0x03; 0x21; 0x43; 0xff] = 1 + l ->
        MarshalBinary scenarioA
        = Returns
            (Some [0x07; 0x12; 0x06; 0x00; 0x12; 0x03; 0x21; 0x43; 0xff],
             None)).
Proof.
  apply (MarshalBinary_after_parse
           [0x07; 0x12; 0x06; 0x00; 0x12; 0x03; 0x21; 0x43; 0xff]).
  - repeat constructor; unfold is_uint8; lia.
  - reflexivity.
Defined.

(** X7.  Bytes after the parameter are ignored: when [UnmarshalBinary]
    accepts a buffer it accepts the buffer with any bytes appended, and
    produces the same value.  The converse fails: [03 01 00 05] is refused
    as truncated, and accepted once one more byte follows. *)
Theorem UnmarshalBinary_trailing_bytes
  (b extra : list Z) (p q : PartyAddress) :
  (UnmarshalBinary b p = Cont tt q ->
   UnmarshalBinary (b ++ extra) p = Cont tt q)
  /\ (ParsePartyAddress [0x03; 0x01; 0x00; 0x05]
      = Returns (None, Some io_ErrUnexpectedEOF)
      /\ exists r,
           ParsePartyAddress ([0x03; 0x01; 0x00; 0x05] ++ [0xff])
           = Returns (Some r, None)).
Proof.
  split; [apply UnmarshalBinary_app|].
  split; [reflexivity|]. eexists. reflexivity.
Qed.

Lemma UnmarshalBinary_trailing_bytes_witness :
  UnmarshalBinary
    ([0x07; 0x12; 0x06; 0x00; 0x12; 0x03; 0x21; 0x43] ++ [0x0a; 0x0b])
    new_PartyAddress
  = Cont tt scenarioA.
Proof.
  destruct (UnmarshalBinary_trailing_bytes
              [0x07; 0x12; 0x06; 0x00; 0x12; 0x03; 0x21; 0x43] [0x0a; 0x0b]
              new_PartyAddress scenarioA) as [Happ _].
  apply Happ. reflexivity.
Defined.

(** X8.  The round trip of any value.  Parsing what [MarshalBinary] returns
    for a party address, whatever its fields, ends in exactly one of three
    ways: [io.ErrUnexpectedEOF] when the length field reaches the byte count
    or when there are neither digits nor a GTI 1 to 4 header; otherwise the
    length-misfit error when the length field does not cover the fixed
    fields; otherwise success, with the value [wire_image]: absent fields
    zeroed, the point code cut to 16 bits, the half octets as the packed
    byte holds them, and the digits cut to what the length field covers. *)
Theorem roundtrip_total (p : PartyAddress) :
  roundtrip p
  = if (MarshalLen p <=? Length p)
       || (negb (gti_variant p) && (len (GlobalTitleInfo (GT p)) =? 0))
    then Returns (None, Some io_ErrUnexpectedEOF)
    else if 1 + Length p <? MarshalLen p - len (GlobalTitleInfo (GT p))
    then Returns (None, Some ErrLengthMisfit)
    else Returns (Some (wire_image p), None).
Proof.
  unfold roundtrip. rewrite MarshalBinary_serialize.
  apply roundtrip_serialize.
Qed.

(** X9.  Only the low six bits of the indicator shape the layout.
    [RouteOnGT] reads bit 6; two indicators that agree on bits 0 to 5 give
    the same [HasPC], [HasSSN], [GTI] and [MarshalLen], and serializations
    that differ in the indicator byte alone. *)
Theorem indicator_high_bits (p : PartyAddress) (ind : Z) :
  RouteOnGT p = negb (Z.testbit (Indicator p) 6)
  /\ (Z.land ind 63 = Z.land (Indicator p) 63 ->
      let p' := set_Indicator ind p in
      HasPC p' = HasPC p /\ HasSSN p' = HasSSN p /\ GTI p' = GTI p
      /\ MarshalLen p' = MarshalLen p
      /\ exists tl,
           MarshalBinary p
           = Returns (Some (Length p :: Indicator p :: tl), None)
           /\ MarshalBinary p'
              = Returns (Some (Length p :: ind :: tl), None)).
Proof.
  split.
  - unfold RouteOnGT.
    change 1 with (Z.ones 1). rewrite Z.land_ones by lia.
    rewrite <- (Z.shiftr_spec _ 6 0) by lia. rewrite Z.bit0_odd.
    change (2 ^ 1) with 2. rewrite Zmod_odd.
    now destruct (Z.odd (Z.shiftr (Indicator p) 6)).
  - intros Hlow p'. subst p'.
    destruct (low_bits_predicates _ _ Hlow) as (H0 & H1 & H2).
    assert (HasPC (set_Indicator ind p) = HasPC p) as Hpc
      by (unfold HasPC; cbn [Indicator set_Indicator]; now rewrite H0).
    assert (HasSSN (set_Indicator ind p) = HasSSN p) as Hssn
      by (unfold HasSSN; cbn [Indicator set_Indicator]; now rewrite H1).
    assert (GTI (set_Indicator ind p) = GTI p) as Hgti
      by (unfold GTI; cbn [Indicator set_Indicator]; now rewrite H2).
    assert (MarshalLen (set_Indicator ind p) = MarshalLen p) as Hlen
      by (unfold MarshalLen; now rewrite Hpc, Hssn, Hgti).
    repeat (split; [assumption|]).
    eexists. rewrite !MarshalBinary_serialize. split; [reflexivity|].
    unfold Spec.serialize, Spec.pointCode, Spec.subsystemNumber.
    rewrite !gtiFields_code, <- !land_1_testbit, <- !land_shiftr_1_testbit.
    unfold Spec.packed. cbv zeta. cbn [Indicator Length GT set_Indicator
      SignalingPointCode SubsystemNumber].
    now rewrite H0, H1, H2.
Qed.

Lemma indicator_high_bits_witness :
  HasPC (set_Indicator 0xd2 scenarioA) = HasPC scenarioA
  /\ HasSSN (set_Indicator 0xd2 scenarioA) = HasSSN scenarioA
  /\ GTI (set_Indicator 0xd2 scenarioA) = GTI scenarioA
  /\ MarshalLen (set_Indicator 0xd2 scenarioA) = MarshalLen scenarioA
  /\ exists tl,
       MarshalBinary scenarioA
       = Returns (Some (Length scenarioA :: Indicator scenarioA :: tl), None)
       /\ MarshalBinary (set_Indicator 0xd2 scenarioA)
          = Returns (Some (Length scenarioA :: 0xd2 :: tl), None).
Proof.
  destruct (indicator_high_bits scenarioA 0xd2) as [_ Hlow].
  apply Hlow. reflexivity.
Defined.

(** X10.  With at most 248 digit bytes the constructor always stores the
    right length: [Length = MarshalLen() - 1], whatever the indicator, and
    the serialization has at most 256 bytes.  The bound is tight: 249 digit
    bytes with point code, subsystem number and GTI 4 make 257 bytes, and
    the stored length is 0. *)
Theorem NewPartyAddress_248
  (gti spc ssn tt np es nai : Z) (gt : list Z) :
  (len gt <= 248 ->
   let p := NewPartyAddress gti spc ssn tt np es nai gt in
   Length p = MarshalLen p - 1 /\ MarshalLen p <= 256 /\ SetLength p = p)
  /\ (let w := NewPartyAddress 0x13 0 0 0 0 0 0 (replicate 249 0) in
      MarshalLen w = 257 /\ Length w = 0).
Proof.
  split; [|split; reflexivity].
  intros Hgt p.
  assert (MarshalLen p <= 256) as Hfit.
  { pose proof (MarshalLen_le p) as Hle. subst p.
    unfold NewPartyAddress in *. rewrite MarshalLen_set_Length in *.
    match type of Hle with
    | context [GlobalTitleInfo (GT ?q)] =>
        change (GlobalTitleInfo (GT q)) with gt in Hle
    end. lia. }
  assert (Length p = uint8 (MarshalLen p - 1)) as HL
    by (subst p; unfold NewPartyAddress; now rewrite MarshalLen_set_Length).
  pose proof (MarshalLen_ge_2 p) as Hge.
  clearbody p.
  split; [rewrite HL; apply uint8_small; lia|]. split; [exact Hfit|].
  rewrite SetLength_MarshalLen, <- HL. now destruct p.
Qed.

Lemma NewPartyAddress_248_witness :
  let p := NewPartyAddress 0x13 0x1234 8 0 1 2 4 (replicate 248 0x21) in
  Length p = MarshalLen p - 1 /\ MarshalLen p <= 256 /\ SetLength p = p.
Proof.
  destruct (NewPartyAddress_248 0x13 0x1234 8 0 1 2 4 (replicate 248 0x21))
    as [Hok _].
  apply Hok. vm_compute. discriminate.
Defined.

(** X11.  The encoder does not derive the length: [MarshalBinary] writes
    the length field as it finds it, and a different length field changes
    the first byte and nothing else.  [SetLength] overwrites whatever the
    field held, and applying it twice is applying it once. *)
Theorem MarshalBinary_keeps_Length (p : PartyAddress) (l : Z) :
  (exists tl,
     MarshalBinary p = Returns (Some (Length p :: tl), None)
     /\ MarshalBinary (set_Length l p) = Returns (Some (l :: tl), None))
  /\ SetLength (set_Length l p) = SetLength p
  /\ SetLength (SetLength p) = SetLength p.
Proof.
  split; [|split].
  - eexists. rewrite !MarshalBinary_serialize. split; reflexivity.
  - rewrite !SetLength_MarshalLen. reflexivity.
  - rewrite !SetLength_MarshalLen. reflexivity.
Qed.

(** X12.  [UnmarshalBinary] does not reset its receiver.  After a
    successful call the length and indicator are the first two bytes of the
    buffer, and every field the indicator leaves out (point code, subsystem
    number, translation type, numbering plan and encoding scheme, nature of
    address) still holds what the receiver held before the call. *)
Theorem UnmarshalBinary_stale_receiver (b : list Z) (p q : PartyAddress) :
  UnmarshalBinary b p = Cont tt q ->
  b !! 0%nat = Some (Length q) /\ b !! 1%nat = Some (Indicator q)
  /\ Length q < len b
  /\ (HasPC q = false -> SignalingPointCode q = SignalingPointCode p)
  /\ (HasSSN q = false -> SubsystemNumber q = SubsystemNumber p)
  /\ (GTI q <> 2 -> GTI q <> 3 -> GTI q <> 4 ->
      TranslationType (GT q) = TranslationType (GT p))
  /\ (GTI q <> 3 -> GTI q <> 4 ->
      NumberingPlan (GT q) = NumberingPlan (GT p)
      /\ EncodingScheme (GT q) = EncodingScheme (GT p))
  /\ (GTI q <> 1 -> GTI q <> 4 ->
      NatureOfAddressIndicator (GT q) = NatureOfAddressIndicator (GT p)).
Proof.
  intros H. pose proof (UnmarshalBinary_ends b p _ eq_refl) as Hend.
  rewrite H in Hend. exact Hend.
Qed.

Lemma UnmarshalBinary_stale_receiver_witness :
  UnmarshalBinary [0x02; 0x00; 0x99] scenarioA
  = Cont tt (set_GlobalTitleInfo [0x99]
               (set_Indicator 0x00 (set_Length 0x02 scenarioA)))
  /\ SubsystemNumber
       (set_GlobalTitleInfo [0x99]
          (set_Indicator 0x00 (set_Length 0x02 scenarioA)))
     = SubsystemNumber scenarioA.
Proof.
  assert (UnmarshalBinary [0x02; 0x00; 0x99] scenarioA
          = Cont tt (set_GlobalTitleInfo [0x99]
                       (set_Indicator 0x00 (set_Length 0x02 scenarioA))))
    as Hrun by reflexivity.
  split; [exact Hrun|].
  destruct (UnmarshalBinary_stale_receiver _ _ _ Hrun)
    as (_ & _ & _ & _ & Hssn & _).
  apply Hssn. reflexivity.
Defined.

(** ** What the fields decide *)

(** Past the two entry checks the outcome is that of the fields: the
    truncated-input error when the fixed fields of the indicator do not fit
    the buffer as the checks want them, the length-misfit error when they
    fit but the length byte does not cover them, and otherwise success with
    the digits taken from behind the fixed fields. *)
Lemma UnmarshalBinary_fields_outcome (b : list Z) (p : PartyAddress) :
  let l := nth 0 b 0 in
  let ind := nth 1 b 0 in
  let fixed := Spec.fixedLength ind in
  let fits :=
    (1 <= Z.land (Z.shiftr ind 2) 15 <= 4 /\ fixed <= len b)
    \/ fixed < len b in
  3 <= len b -> l < len b ->
  (~ fits
   /\ exists r, UnmarshalBinary b p = Err io_ErrUnexpectedEOF r
                /\ Length r = l /\ Indicator r = ind)
  \/ (fits /\ 1 + l < fixed
      /\ exists r, UnmarshalBinary b p = Err ErrLengthMisfit r
                   /\ Length r = l /\ Indicator r = ind)
  \/ (fits /\ fixed <= 1 + l
      /\ exists q, UnmarshalBinary b p = Cont tt q
                   /\ Length q = l /\ Indicator q = ind
                   /\ GlobalTitleInfo (GT q)
                      = take (Z.to_nat (1 + l - fixed))
                          (drop (Z.to_nat fixed) b)).
Proof.
  cbv zeta. intros Hlen Hl.
  remember (UnmarshalBinary b p) as r eqn:Hr. revert Hr.
  rewrite fixedLength_code. cbv zeta.
  unfold UnmarshalBinary. run.
  all: intros ->.
  all: use_conds.
  all: repeat match goal with
         | |- context [if ?c then _ else _] =>
             let E := fresh "C" in destruct c eqn:E; cond_to_prop E
         end.
  all: first
         [ left; split; [len_lia|];
           eexists; split; [reflexivity|split; reflexivity]
         | right; left; split; [len_lia|]; split; [len_lia|];
           eexists; split; [reflexivity|split; reflexivity]
         | right; right; split; [len_lia|]; split; [len_lia|];
           eexists; split; [reflexivity|];
           split; [reflexivity|]; split; [reflexivity|] ].
  all: all_fields; norm_offsets.
  all: rewrite (copy_digits b) by len_lia.
  all: f_equal; lia.
Qed.

(** The outcome of the fields, for a buffer given by its first two bytes. *)
Lemma UnmarshalBinary_fields_cases
  (b : list Z) (p : PartyAddress) (l ind : Z) :
  3 <= len b -> b !! 0%nat = Some l -> l < len b -> b !! 1%nat = Some ind ->
  let fixed := Spec.fixedLength ind in
  let fits :=
    (1 <= Z.land (Z.shiftr ind 2) 15 <= 4 /\ fixed <= len b)
    \/ fixed < len b in
  (~ fits
   /\ exists r, UnmarshalBinary b p = Err io_ErrUnexpectedEOF r
                /\ Length r = l /\ Indicator r = ind)
  \/ (fits /\ 1 + l < fixed
      /\ exists r, UnmarshalBinary b p = Err ErrLengthMisfit r
                   /\ Length r = l /\ Indicator r = ind)
  \/ (fits /\ fixed <= 1 + l
      /\ exists q, UnmarshalBinary b p = Cont tt q
                   /\ Length q = l /\ Indicator q = ind
                   /\ GlobalTitleInfo (GT q)
                      = take (Z.to_nat (1 + l - fixed))
                          (drop (Z.to_nat fixed) b)).
Proof.
  intros Hlen H0 Hlt H1.
  apply nth_lookup_Some with (d := 0) in H0, H1. subst l ind.
  now apply UnmarshalBinary_fields_outcome.
Qed.

(** C4.  Entry checks of the decoder.  A buffer of fewer than three bytes is
    refused with [io.ErrUnexpectedEOF] and the receiver is left untouched;
    the two-byte buffer [07 12] is one.  With three bytes or more, a length
    byte that reaches the buffer length is refused with the same error, and
    only the length field of the receiver has been written.  A buffer that
    passes both checks goes on to the fields: it does not panic, the
    receiver holds the length and the indicator byte of the buffer, and the
    outcome is the one the fields decide.  When the fixed fields the
    indicator declares do not fit the buffer the call ends in
    [io.ErrUnexpectedEOF]; when they fit and the length byte does not cover
    them, in the length-misfit error; and otherwise it succeeds, the digits
    are the bytes from behind the fixed fields up to the declared length,
    and on a buffer of bytes every field was read from its place:
    serializing the result gives the first [1 + length] bytes back. *)
Theorem UnmarshalBinary_entry_checks (b : list Z) (p : PartyAddress) :
  (len b < 3 -> UnmarshalBinary b p = Err io_ErrUnexpectedEOF p)
  /\ (forall l, 3 <= len b -> b !! 0%nat = Some l -> len b <= l ->
      UnmarshalBinary b p = Err io_ErrUnexpectedEOF (set_Length l p))
  /\ (forall l ind, 3 <= len b -> b !! 0%nat = Some l -> l < len b ->
      b !! 1%nat = Some ind ->
      let fixed := Spec.fixedLength ind in
      let fits :=
        (1 <= Z.land (Z.shiftr ind 2) 15 <= 4 /\ fixed <= len b)
        \/ fixed < len b in
      (exists r,
         (UnmarshalBinary b p = Cont tt r
          \/ exists e, UnmarshalBinary b p = Err e r)
         /\ Length r = l /\ Indicator r = ind)
      /\ (~ fits ->
          exists r, UnmarshalBinary b p = Err io_ErrUnexpectedEOF r)
      /\ (fits -> 1 + l < fixed ->
          exists r, UnmarshalBinary b p = Err ErrLengthMisfit r)
      /\ (fits -> fixed <= 1 + l ->
          exists q,
            UnmarshalBinary b p = Cont tt q
            /\ GlobalTitleInfo (GT q)
               = take (Z.to_nat (1 + l - fixed)) (drop (Z.to_nat fixed) b)
            /\ (Forall is_uint8 b ->
                Spec.serialize q = take (Z.to_nat (1 + l)) b)))
  /\ ParsePartyAddress [0x07; 0x12] = Returns (None, Some io_ErrUnexpectedEOF).
Proof.
  split; [|split; [|split]].
  - intros Hlen. unfold UnmarshalBinary. step. reflexivity.
  - intros l Hlen Hl Hge. destruct b as [|l' b]; [discriminate|].
    cbn in Hl. injection Hl as ->.
    unfold UnmarshalBinary. do 3 step. reflexivity.
  - intros l ind Hlen Hl Hlt Hind fixed fits.
    destruct (UnmarshalBinary_fields_cases b p l ind Hlen Hl Hlt Hind)
      as [(Hno & r & Hr & HL & HI)
         | [(Hfits & Hshort & r & Hr & HL & HI)
           | (Hfits & Hcover & q & Hq & HL & HI & Hdigits)]];
      fold fixed in Hno || fold fixed in Hfits; fold fits in Hno || fold fits in Hfits;
      try fold fixed in Hshort; try fold fixed in Hcover, Hdigits.
    + split; [exists r; split; [right; exists io_ErrUnexpectedEOF; exact Hr
                               | split; assumption]|].
      split; [intros _; exists r; exact Hr|].
      split; intros Hf; now exfalso.
    + split; [exists r; split; [right; exists ErrLengthMisfit; exact Hr
                               | split; assumption]|].
      split; [intros Hf; now exfalso|].
      split; [intros _ _; exists r; exact Hr|].
      intros _ Hc. lia.
    + split; [exists q; split; [left; exact Hq | split; assumption]|].
      split; [intros Hf; now exfalso|].
      split; [intros _ Hs; lia|].
      intros _ _. exists q. split; [exact Hq|]. split; [exact Hdigits|].
      intros Hb. rewrite <- HL.
      now destruct (UnmarshalBinary_reencode b p q Hb Hq).
  - reflexivity.
Qed.

Lemma UnmarshalBinary_entry_checks_witness :
  UnmarshalBinary [0x07; 0x12] new_PartyAddress
  = Err io_ErrUnexpectedEOF new_PartyAddress
  /\ UnmarshalBinary [0x03; 0x00; 0x09] new_PartyAddress
     = Err io_ErrUnexpectedEOF (set_Length 0x03 new_PartyAddress)
  /\ (exists r,
        (UnmarshalBinary [0x02; 0x00; 0x09] new_PartyAddress = Cont tt r
         \/ exists e,
              UnmarshalBinary [0x02; 0x00; 0x09] new_PartyAddress = Err e r)
        /\ Length r = 0x02 /\ Indicator r = 0x00)
  /\ (exists r,
        UnmarshalBinary [0x04; 0x43; 0x00; 0x05; 0x08] new_PartyAddress
        = Err io_ErrUnexpectedEOF r)
  /\ (exists r,
        UnmarshalBinary [0x01; 0x10; 0x00; 0x12; 0x03; 0x21] new_PartyAddress
        = Err ErrLengthMisfit r)
  /\ (exists q,
        UnmarshalBinary
          [0x07; 0x12; 0x06; 0x00; 0x12; 0x03; 0x21; 0x43; 0xff]
          new_PartyAddress
        = Cont tt q
        /\ GlobalTitleInfo (GT q) = [0x21; 0x43]
        /\ Spec.serialize q
           = [0x07; 0x12; 0x06; 0x00; 0x12; 0x03; 0x21; 0x43]).
Proof.
  split; [|split; [|split; [|split; [|split]]]].
  - destruct (UnmarshalBinary_entry_checks [0x07; 0x12] new_PartyAddress)
      as (Hshort & _).
    apply Hshort. reflexivity.
  - destruct (UnmarshalBinary_entry_checks [0x03; 0x00; 0x09] new_PartyAddress)
      as (_ & Hlength & _).
    apply Hlength; [discriminate | reflexivity | discriminate].
  - destruct (UnmarshalBinary_entry_checks [0x02; 0x00; 0x09] new_PartyAddress)
      as (_ & _ & Hfields & _).
    apply (Hfields 0x02 0x00);
      [discriminate | reflexivity | reflexivity | reflexivity].
  - destruct (UnmarshalBinary_entry_checks
                [0x04; 0x43; 0x00; 0x05; 0x08] new_PartyAddress)
      as (_ & _ & Hfields & _).
    destruct (Hfields 0x04 0x43) as (_ & Hcut & _);
      [discriminate | reflexivity | reflexivity | reflexivity |].
    apply Hcut.
    change (Spec.fixedLength 0x43) with 5.
    change (Z.land (Z.shiftr 0x43 2) 15) with 0.
    change (len [0x04; 0x43; 0x00; 0x05; 0x08]) with 5. lia.
  - destruct (UnmarshalBinary_entry_checks
                [0x01; 0x10; 0x00; 0x12; 0x03; 0x21] new_PartyAddress)
      as (_ & _ & Hfields & _).
    destruct (Hfields 0x01 0x10) as (_ & _ & Hmisfit & _);
      [discriminate | reflexivity | reflexivity | reflexivity |].
    apply Hmisfit; [right; reflexivity | reflexivity].
  - destruct (UnmarshalBinary_entry_checks
                [0x07; 0x12; 0x06; 0x00; 0x12; 0x03; 0x21; 0x43; 0xff]
                new_PartyAddress)
      as (_ & _ & Hfields & _).
    destruct (Hfields 0x07 0x12) as (_ & _ & _ & Hok);
      [discriminate | reflexivity | reflexivity | reflexivity |].
    destruct Hok as (q & Hq & Hdigits & Hser);
      [right; reflexivity | vm_compute; discriminate |].
    exists q. split; [exact Hq|]. split; [exact Hdigits|].
    apply Hser. repeat constructor; unfold is_uint8; lia.
Defined.

(** C6.  One GTI table for the three views.  The extra fixed bytes are
    0/1/1/2/3 for GTI 0/1/2/3/4 and 0 for GTI 5 to 15, and the GTI of any
    party address lies in 0..15.  [MarshalLen] is 2, plus 2 with a point
    code, plus 1 with a subsystem number, plus that table entry, plus the
    digits.  [MarshalBinary] writes, after length, indicator, point code and
    subsystem number, the fields of the table (nature of address for GTI 1;
    translation type for GTI 2; translation type, then the packed half
    octets for GTI 3; those and the nature of address for GTI 4; nothing
    otherwise), as many bytes as the table says, then the digits.  The
    decoder reads by the same table.  Past its two entry checks it accepts a
    buffer exactly when the length byte covers the fixed length the table
    gives for the indicator and the buffer has a GTI 1 to 4 header or a byte
    beyond the fixed fields; the digits it returns start right behind the
    table's fixed fields; whenever it accepts a buffer of bytes, serializing
    the value it produced gives back the first [1 + length] bytes of that
    buffer; and it reads back what the encoder laid out: parsing the
    serialization of a value that holds only what its indicator puts on the
    wire, with its length field right and digits or a GTI 1 to 4 header,
    returns that value. *)
Theorem gti_table_consistent (p : PartyAddress) :
  map Spec.gtiExtraBytes [0; 1; 2; 3; 4; 5; 6; 7; 8; 9; 10; 11; 12; 13; 14; 15]
  = [0; 1; 1; 2; 3; 0; 0; 0; 0; 0; 0; 0; 0; 0; 0; 0]
  /\ 0 <= GTI p < 16
  /\ MarshalLen p
     = 2 + (if HasPC p then 2 else 0) + (if HasSSN p then 1 else 0)
       + Spec.gtiExtraBytes (GTI p) + len (GlobalTitleInfo (GT p))
  /\ MarshalBinary p = Returns (Some (Spec.serialize p), None)
  /\ len (Spec.gtiFields p) = Spec.gtiExtraBytes (GTI p)
  /\ (forall b q,
        Forall is_uint8 b -> UnmarshalBinary b p = Cont tt q ->
        Spec.serialize q = take (Z.to_nat (1 + Length q)) b
        /\ Spec.computeWireLength q = 1 + Length q)
  /\ (forall b l ind,
        3 <= len b -> b !! 0%nat = Some l -> l < len b ->
        b !! 1%nat = Some ind ->
        ((exists q, UnmarshalBinary b p = Cont tt q)
         <-> (Spec.fixedLength ind <= 1 + l
              /\ (1 <= Z.land (Z.shiftr ind 2) 15 <= 4
                  \/ Spec.fixedLength ind < len b)))
        /\ (forall q, UnmarshalBinary b p = Cont tt q ->
              Indicator q = ind
              /\ GlobalTitleInfo (GT q)
                 = take (Z.to_nat (1 + l - Spec.fixedLength ind))
                     (drop (Z.to_nat (Spec.fixedLength ind)) b)))
  /\ (on_wire p = true -> Length p = MarshalLen p - 1 ->
      GlobalTitleInfo (GT p) <> [] \/ gti_variant p = true ->
      ParsePartyAddress (Spec.serialize p) = Returns (Some p, None)).
Proof.
  split; [reflexivity|]. split; [apply GTI_range|].
  split; [|split; [apply MarshalBinary_serialize|
                   split; [apply len_gtiFields|]]].
  - rewrite MarshalLen_computeWireLength.
    unfold Spec.computeWireLength, Spec.fixedLength, HasPC, HasSSN, GTI.
    now rewrite land_1_testbit, land_shiftr_1_testbit.
  - split; [intros b q; apply UnmarshalBinary_reencode|].
    split; [|apply ParsePartyAddress_serialize].
    intros b l ind Hlen Hl Hlt Hind.
    destruct (UnmarshalBinary_fields_cases b p l ind Hlen Hl Hlt Hind)
      as [(Hno & r & Hr & _)
         | [(Hfits & Hshort & r & Hr & _)
           | (Hfits & Hcover & q & Hq & _ & HI & Hdigits)]].
    + split; [split|].
      * intros [q Hq]. rewrite Hr in Hq. discriminate.
      * intros [Hcover Hmore]. exfalso. apply Hno. lia.
      * intros q Hq. rewrite Hr in Hq. discriminate.
    + split; [split|].
      * intros [q Hq]. rewrite Hr in Hq. discriminate.
      * intros [Hcover _]. lia.
      * intros q Hq. rewrite Hr in Hq. discriminate.
    + split; [split|].
      * intros _. split; [exact Hcover|]. lia.
      * intros _. exists q. exact Hq.
      * intros q' Hq'. rewrite Hq in Hq'. injection Hq' as <-.
        split; assumption.
Qed.

Lemma gti_table_consistent_witness :
  (Spec.serialize scenarioA
   = take (Z.to_nat (1 + Length scenarioA))
       [0x07; 0x12; 0x06; 0x00; 0x12; 0x03; 0x21; 0x43; 0xff]
   /\ Spec.computeWireLength scenarioA = 1 + Length scenarioA)
  /\ (exists q,
        UnmarshalBinary [0x07; 0x12; 0x06; 0x00; 0x12; 0x03; 0x21; 0x43; 0xff]
          new_PartyAddress
        = Cont tt q)
  /\ ParsePartyAddress (Spec.serialize scenarioA)
     = Returns (Some scenarioA, None).
Proof.
  split; [|split].
  - destruct (gti_table_consistent new_PartyAddress)
      as (_ & _ & _ & _ & _ & Hdecode & _).
    apply (Hdecode [0x07; 0x12; 0x06; 0x00; 0x12; 0x03; 0x21; 0x43; 0xff]).
    + repeat constructor; unfold is_uint8; lia.
    + reflexivity.
  - destruct (gti_table_consistent new_PartyAddress)
      as (_ & _ & _ & _ & _ & _ & Haccept & _).
    destruct (Haccept [0x07; 0x12; 0x06; 0x00; 0x12; 0x03; 0x21; 0x43; 0xff]
                0x07 0x12) as [[_ Hyes] _];
      [discriminate | reflexivity | reflexivity | reflexivity |].
    apply Hyes.
    change (Spec.fixedLength 0x12) with 6.
    change (Z.land (Z.shiftr 0x12 2) 15) with 4. lia.
  - destruct (gti_table_consistent scenarioA)
      as (_ & _ & _ & _ & _ & _ & _ & Hback).
    apply Hback; [reflexivity | reflexivity | left; discriminate].
Defined.
